(** * pytransform.urdf: the URDF loader and the joint registry

    A shallow embedding of [src/pytransform/urdf.py]
    ([UrdfTransformManager], [Node], [UrdfException]) and the proofs of
    the properties its specification states.

    Floating-point numbers are idealised as real numbers: [numpy] arrays
    of shape (3,), (3,3) and (4,4) become records of reals. *)

From Stdlib Require Import Reals Lra RNsatz.
From stdpp Require Import gmap strings list.

Local Open Scope R_scope.
Local Open Scope string_scope.

(** ** Transform algebra *)

Module Algebra.

Record V3 := mkV3 { x3 : R; y3 : R; z3 : R }.
Record M3 := mkM3 { r3_1 : V3; r3_2 : V3; r3_3 : V3 }.
Record V4 := mkV4 { x4 : R; y4 : R; z4 : R; w4 : R }.
Record M4 := mkM4 { r4_1 : V4; r4_2 : V4; r4_3 : V4; r4_4 : V4 }.

(** [np.zeros(3)], [np.eye(3)], [np.eye(4)]. *)
Definition zeros3 : list R := [0; 0; 0].
Definition eye3 : M3 := mkM3 (mkV3 1 0 0) (mkV3 0 1 0) (mkV3 0 0 1).
Definition eye4 : M4 :=
  mkM4 (mkV4 1 0 0 0) (mkV4 0 1 0 0) (mkV4 0 0 1 0) (mkV4 0 0 0 1).

(** [m.T] on a 3x3 array. *)
Definition transpose3 (m : M3) : M3 :=
  mkM3 (mkV3 (x3 (r3_1 m)) (x3 (r3_2 m)) (x3 (r3_3 m)))
       (mkV3 (y3 (r3_1 m)) (y3 (r3_2 m)) (y3 (r3_3 m)))
       (mkV3 (z3 (r3_1 m)) (z3 (r3_2 m)) (z3 (r3_3 m))).

Definition transpose4 (m : M4) : M4 :=
  mkM4 (mkV4 (x4 (r4_1 m)) (x4 (r4_2 m)) (x4 (r4_3 m)) (x4 (r4_4 m)))
       (mkV4 (y4 (r4_1 m)) (y4 (r4_2 m)) (y4 (r4_3 m)) (y4 (r4_4 m)))
       (mkV4 (z4 (r4_1 m)) (z4 (r4_2 m)) (z4 (r4_3 m)) (z4 (r4_4 m)))
       (mkV4 (w4 (r4_1 m)) (w4 (r4_2 m)) (w4 (r4_3 m)) (w4 (r4_4 m))).

Definition dot4 (u v : V4) : R :=
  x4 u * x4 v + y4 u * y4 v + z4 u * z4 v + w4 u * w4 v.

(** Row vector times matrix. *)
Definition vmul4 (u : V4) (b : M4) : V4 :=
  let bt := transpose4 b in
  mkV4 (dot4 u (r4_1 bt)) (dot4 u (r4_2 bt))
       (dot4 u (r4_3 bt)) (dot4 u (r4_4 bt)).

(** [a.dot(b)] on 4x4 arrays. *)
Definition mmul (a b : M4) : M4 :=
  mkM4 (vmul4 (r4_1 a) b) (vmul4 (r4_2 a) b)
       (vmul4 (r4_3 a) b) (vmul4 (r4_4 a) b).

(** [a.dot(p)] for a 4x4 array and a homogeneous point. *)
Definition mapply (a : M4) (p : V4) : V4 :=
  mkV4 (dot4 (r4_1 a) p) (dot4 (r4_2 a) p)
       (dot4 (r4_3 a) p) (dot4 (r4_4 a) p).

(** The homogeneous matrix with rotation block [r] and translation
    column [p]. *)
Definition homogeneous (r : M3) (p : V3) : M4 :=
  mkM4 (mkV4 (x3 (r3_1 r)) (y3 (r3_1 r)) (z3 (r3_1 r)) (x3 p))
       (mkV4 (x3 (r3_2 r)) (y3 (r3_2 r)) (z3 (r3_2 r)) (y3 p))
       (mkV4 (x3 (r3_3 r)) (y3 (r3_3 r)) (z3 (r3_3 r)) (z3 p))
       (mkV4 0 0 0 1).

(** [A2B[:3, :3]] and [A2B[:3, 3]]. *)
Definition rotation_block (m : M4) : M3 :=
  mkM3 (mkV3 (x4 (r4_1 m)) (y4 (r4_1 m)) (z4 (r4_1 m)))
       (mkV3 (x4 (r4_2 m)) (y4 (r4_2 m)) (z4 (r4_2 m)))
       (mkV3 (x4 (r4_3 m)) (y4 (r4_3 m)) (z4 (r4_3 m))).

Definition translation_of (m : M4) : V3 :=
  mkV3 (w4 (r4_1 m)) (w4 (r4_2 m)) (w4 (r4_3 m)).

Definition dot3 (u v : V3) : R := x3 u * x3 v + y3 u * y3 v + z3 u * z3 v.

(** [a.dot(b)] on 3x3 arrays and [a.dot(v)] for a 3x3 array and a
    3-vector. *)
Definition mmul3 (a b : M3) : M3 :=
  let bt := transpose3 b in
  mkM3 (mkV3 (dot3 (r3_1 a) (r3_1 bt)) (dot3 (r3_1 a) (r3_2 bt))
             (dot3 (r3_1 a) (r3_3 bt)))
       (mkV3 (dot3 (r3_2 a) (r3_1 bt)) (dot3 (r3_2 a) (r3_2 bt))
             (dot3 (r3_2 a) (r3_3 bt)))
       (mkV3 (dot3 (r3_3 a) (r3_1 bt)) (dot3 (r3_3 a) (r3_2 bt))
             (dot3 (r3_3 a) (r3_3 bt))).
Definition mapply3 (a : M3) (v : V3) : V3 :=
  mkV3 (dot3 (r3_1 a) v) (dot3 (r3_2 a) v) (dot3 (r3_3 a) v).

(** The determinant and the trace of a 3x3 array. *)
Definition det3 (m : M3) : R :=
  x3 (r3_1 m) * (y3 (r3_2 m) * z3 (r3_3 m) - z3 (r3_2 m) * y3 (r3_3 m))
  - y3 (r3_1 m) * (x3 (r3_2 m) * z3 (r3_3 m) - z3 (r3_2 m) * x3 (r3_3 m))
  + z3 (r3_1 m) * (x3 (r3_2 m) * y3 (r3_3 m) - y3 (r3_2 m) * x3 (r3_3 m)).
Definition trace3 (m : M3) : R :=
  x3 (r3_1 m) + y3 (r3_2 m) + z3 (r3_3 m).

(** A rotation matrix: orthonormal, with determinant 1. *)
Definition is_rotation (m : M3) : Prop :=
  mmul3 m (transpose3 m) = eye3 /\ det3 m = 1.

(** [v / np.linalg.norm(v)]; a vector of norm zero stays as it is. *)
Definition norm_vector (v : V3) : V3 :=
  let n := sqrt (dot3 v v) in
  mkV3 (x3 v / n) (y3 v / n) (z3 v / n).

End Algebra.
Import Algebra.

(** ** Exceptions *)

Inductive exn : Type :=
| UrdfException (msg : string)
| KeyError (msg : string)
| ValueError.

(** Python's ["...%s..." % name] on strings. *)
Definition fmt1 (pre : string) (a : string) (post : string) : string :=
  pre ++ a ++ post.
Definition fmt2 (pre a mid b post : string) : string :=
  pre ++ a ++ mid ++ b ++ post.

(** ** The helpers of [transformations.py] and [rotations.py] *)

(** Modelled from the spec: [transformations.transform_from] is not under
    src/.  "Construction of a 4x4 homogeneous transform from a rotation +
    translation"; a translation that is not a 3-vector is refused by the
    numeric library ([transform_from_any] below leaves that case
    open). *)
Definition transform_from (r : M3) (p : list R) : exn + M4 :=
  match p with
  | [x; y; z] => inr (homogeneous r (mkV3 x y z))
  | _ => inl ValueError
  end.

(** Modelled from the spec: [transformations.concat] is not under src/.
    [concat A2B B2C] is the transform A2C that applies [A2B] first and
    [B2C] second, the matrix product [B2C * A2B].  The order is the one
    that the call site in [set_joint] names and that the specification
    tests: the arguments are [joint2A], the joint rotation about an axis
    "defined in the child frame" (the docstring of [add_joint]), and
    [child2parent]; the joint rotation is "applied in the child frame
    before the fixed offset"; and in the end-to-end scenario (origin
    xyz = "1 0 0", axis z, angle pi/2) the committed edge keeps the
    translation (1, 0, 0), which the product in the other order would
    turn into (0, 1, 0). *)
Definition concat (A2B B2C : M4) : M4 := mmul B2C A2B.

(** Modelled from the spec: [rotations.matrix_from_axis_angle] is not
    under src/.  "Build a pure joint rotation matrix from (axis, angle)
    using an axis-angle construction" with the result a "3x3 rotation"
    for an axis whose "unit-scale [is] not enforced": Rodrigues' formula
    on the normalised axis; the argument is the 4-vector
    (ux, uy, uz, theta). *)
Definition matrix_from_axis_angle (a : list R) : exn + M3 :=
  match a with
  | [ux; uy; uz; theta] =>
      let u := norm_vector (mkV3 ux uy uz) in
      let ux := x3 u in
      let uy := y3 u in
      let uz := z3 u in
      let c := cos theta in
      let s := sin theta in
      let ci := 1 - c in
      inr (mkM3
        (mkV3 (ci * ux * ux + c) (ci * ux * uy - uz * s) (ci * ux * uz + uy * s))
        (mkV3 (ci * uy * ux + uz * s) (ci * uy * uy + c) (ci * uy * uz - ux * s))
        (mkV3 (ci * uz * ux - uy * s) (ci * uz * uy + ux * s) (ci * uz * uz + c)))
  | _ => inl ValueError
  end.

(** ** The frame-graph store and the joint registry *)

(** A joint record: [from_frame, to_frame, child2parent, axis]. *)
Abbreviation JointRecord := (string * string * M4 * list R)%type.

(** The state of a [UrdfTransformManager]: the frames and edges of the
    inherited [TransformManager] and the [_joints] dict. *)
Record UrdfTransformManager := mkManager {
  frames : gset string;
  transforms : gmap (string * string) M4;
  _joints : gmap string JointRecord
}.

(** [UrdfTransformManager()]. *)
Definition new_manager : UrdfTransformManager := mkManager ∅ ∅ ∅.

(** Modelled from the spec: [TransformManager.add_transform] is not under
    src/.  [upsert_edge(child, parent, transform)]: the edge
    (from_frame, to_frame) is inserted or overwritten, and "frames come
    into existence implicitly as edges referencing them are committed".
    The specification gives the operation no failure;
    [add_transform_checked] below is the operation of a store that
    validates the matrix. *)
Definition add_transform (from_frame to_frame : string) (A2B : M4)
    (self : UrdfTransformManager) : UrdfTransformManager :=
  mkManager ({[from_frame]} ∪ {[to_frame]} ∪ frames self)
            (<[(from_frame, to_frame) := A2B]> (transforms self))
            (_joints self).

(** A method that mutates [self] and may raise. *)
Definition M (A : Type) : Type :=
  UrdfTransformManager -> UrdfTransformManager * (exn + A).

Definition ret {A} (a : A) : M A := fun self => (self, inr a).
Definition raise {A} (e : exn) : M A := fun self => (self, inl e).
Definition bind {A B} (m : M A) (k : A -> M B) : M B :=
  fun self =>
    match m self with
    | (self', inr a) => k a self'
    | (self', inl e) => (self', inl e)
    end.
(** A computation that does not touch [self]. *)
Definition lift {A} (r : exn + A) : M A := fun self => (self, r).
(** A call that mutates [self] and cannot raise. *)
Definition call (f : UrdfTransformManager -> UrdfTransformManager) : M unit :=
  fun self => (f self, inr tt).

Notation "'let!' x ':=' m 'in' k" := (bind m (fun x => k))
  (at level 10, x name, m at level 100, k at level 200).

(** [add_joint(joint_name, from_frame, to_frame, child2parent, axis)]. *)
Definition add_joint (joint_name from_frame to_frame : string)
    (child2parent : M4) (axis : list R)
    (self : UrdfTransformManager) : UrdfTransformManager :=
  let self := add_transform from_frame to_frame child2parent self in
  mkManager (frames self) (transforms self)
            (<[joint_name := (from_frame, to_frame, child2parent, axis)]>
               (_joints self)).

(** The message of the [KeyError] that [set_joint] raises. *)
Definition UnknownJoint (joint_name : string) : exn :=
  KeyError (fmt1 "Joint '" joint_name "' is not known").

(** [set_joint(joint_name, angle)]. *)
Definition set_joint (joint_name : string) (angle : R) : M unit :=
  fun self =>
    match _joints self !! joint_name with
    | None => raise (UnknownJoint joint_name) self
    | Some (from_frame, to_frame, child2parent, axis) =>
        (let! joint_rotation :=
           lift (matrix_from_axis_angle (axis ++ [angle])) in
         let! joint2A := lift (transform_from joint_rotation zeros3) in
         call (add_transform from_frame to_frame
                 (concat joint2A child2parent))) self
    end.

(** ** The document accessor *)

(** The tree that [BeautifulSoup(urdf_xml, "xml")] returns: tags with a
    name, attributes and contents, and text between them. *)
#[warnings="-register-all"]
Inductive PageElement : Type :=
| NavigableString (text : string)
| Tag (name : string) (attrs : list (string * string))
      (contents : list PageElement).

(** A Python dict with string keys, in insertion order. *)
Definition dict (V : Type) : Type := list (string * V).

Fixpoint dict_get {V} (k : string) (d : dict V) : option V :=
  match d with
  | [] => None
  | (k', v) :: d' => if String.eqb k k' then Some v else dict_get k d'
  end.

(** [d[k] = v]: an existing key keeps its place. *)
Fixpoint dict_set {V} (k : string) (v : V) (d : dict V) : dict V :=
  match d with
  | [] => [(k, v)]
  | (k', v') :: d' =>
      if String.eqb k k' then (k, v) :: d' else (k', v') :: dict_set k v d'
  end.

(** [k in d] and [d.values()]. *)
Definition dict_mem {V} (k : string) (d : dict V) : bool :=
  match dict_get k d with Some _ => true | None => false end.
Definition dict_values {V} (d : dict V) : list V := snd <$> d.

(** [d[k]] raises [KeyError] on a key that is absent. *)
Definition dict_getitem {V} (k : string) (d : dict V) : exn + V :=
  match dict_get k d with Some v => inr v | None => inl (KeyError k) end.

(** All the descendants of an element, in document order. *)
Fixpoint descendants (e : PageElement) : list PageElement :=
  match e with
  | NavigableString _ => []
  | Tag _ _ cs => flat_map (fun c => c :: descendants c) cs
  end.

Definition is_tag (name : string) (e : PageElement) : bool :=
  match e with
  | NavigableString _ => false
  | Tag n _ _ => String.eqb n name
  end.

(** [e.findAll(name)] and [e.find(name)]. *)
Definition findAll (name : string) (e : PageElement) : list PageElement :=
  List.filter (is_tag name) (descendants e).
Definition find (name : string) (e : PageElement) : option PageElement :=
  head (findAll name e).

Definition attrs_of (e : PageElement) : dict string :=
  match e with
  | NavigableString _ => []
  | Tag _ a _ => a
  end.

(** [e.has_attr(k)] and [e[k]]. *)
Definition has_attr (e : PageElement) (k : string) : bool :=
  dict_mem k (attrs_of e).
Definition getitem (e : PageElement) (k : string) : exn + string :=
  dict_getitem k (attrs_of e).

(** The value of an attribute, if the element has it. *)
Definition attr (e : PageElement) (k : string) : option string :=
  dict_get k (attrs_of e).

(** The link that the [tag] child element ("parent" or "child") of a
    joint element names. *)
Definition joint_link (tag : string) (joint : PageElement) : option string :=
  match find tag joint with
  | Some e => attr e "link"
  | None => None
  end.

(** ** Raising code that does not touch the manager *)

Definition ebind {A B} (r : exn + A) (k : A -> exn + B) : exn + B :=
  match r with
  | inr a => k a
  | inl e => inl e
  end.

Notation "'let?' x ':=' r 'in' k" := (ebind r (fun x => k))
  (at level 10, x name, r at level 100, k at level 200).

(** A call into the numeric library, which raises [ValueError] where it
    refuses its argument. *)
Definition numeric {A} (o : option A) : exn + A :=
  match o with
  | Some a => inr a
  | None => inl ValueError
  end.

(** ** The link-parsing node *)

Record Node := mkNode {
  child : string;
  parent : string;
  child2parent : M4;
  joint_name : option string;
  joint_axis : option (list R);
  joint_type : string
}.

(** [Node(child, parent)]. *)
Definition Node_init (child parent : string) : Node :=
  mkNode child parent eye4 None None "fixed".

(** ** The errors of the loader, by the names the specification gives them *)

Definition MissingRobotElement : exn :=
  UrdfException "Robot tag is missing.".
Definition MissingRobotName : exn :=
  UrdfException "Attribute 'name' is missing in robot tag.".
Definition MissingLinkName : exn :=
  UrdfException "Link name is missing.".
Definition MissingJointName : exn :=
  UrdfException "Joint name is missing.".
Definition MissingJointType (joint_name : string) : exn :=
  UrdfException (fmt1 "Joint type is missing in joint '" joint_name "'.").
Definition MissingJointParent (joint_name : string) : exn :=
  UrdfException (fmt1 "No parent specified in joint '" joint_name "'").
Definition MissingParentLinkName (joint_name : string) : exn :=
  UrdfException (fmt1 "No parent link name given in joint '" joint_name "'.").
Definition UnknownParentLink (parent_name joint_name : string) : exn :=
  UrdfException (fmt2 "Parent link '" parent_name "' of joint '" joint_name
                      "' is not defined.").
Definition MissingJointChild (joint_name : string) : exn :=
  UrdfException (fmt1 "No child specified in joint '" joint_name "'").
Definition MissingChildLinkName (joint_name : string) : exn :=
  UrdfException (fmt1 "No child link name given in joint '" joint_name "'.").
Definition UnknownChildLink (child_name joint_name : string) : exn :=
  UrdfException (fmt2 "Child link '" child_name "' of joint '" joint_name
                      "' is not defined.").
Definition UnsupportedJointType (joint_type : string) : exn :=
  UrdfException (fmt1 "Unsupported joint type '" joint_type "'").
Definition InvalidJointType (joint_type : string) : exn :=
  UrdfException (fmt1 "Joint type '" joint_type
                      "' is not allowed in a URDF document.").

(** [s in [...]] on a list of strings. *)
Definition str_in (s : string) (l : list string) : bool :=
  existsb (String.eqb s) l.

(** ** The loader *)

(** The body of the last loop of [load_urdf].  A node whose [joint_type]
    is revolute was filled by [_parse_joint], so its [joint_name] and
    [joint_axis] are set; the last branch is never taken. *)
Definition commit_node (node : Node) : M unit :=
  if String.eqb (joint_type node) "revolute" then
    match joint_name node, joint_axis node with
    | Some name, Some axis =>
        call (add_joint name (child node) (parent node)
                (child2parent node) axis)
    | _, _ => ret tt
    end
  else
    call (add_transform (child node) (parent node) (child2parent node)).

(** [for node in nodes.values(): ...]. *)
Fixpoint commit_nodes (values : list Node) : M unit :=
  match values with
  | [] => ret tt
  | node :: rest => let! _ := commit_node node in commit_nodes rest
  end.

(** [_parse_link(link, robot_name)]. *)
Definition _parse_link (link : PageElement) (robot_name : string)
    : exn + Node :=
  if negb (has_attr link "name") then inl MissingLinkName
  else let? name := getitem link "name" in
       inr (Node_init name robot_name).

(** [for link in robot.findAll("link"): ...]. *)
Fixpoint load_links (robot_name : string) (links : list PageElement)
    (nodes : dict Node) : exn + dict Node :=
  match links with
  | [] => inr nodes
  | link :: rest =>
      let? node := _parse_link link robot_name in
      load_links robot_name rest (dict_set (child node) node nodes)
  end.

Section Loader.

(** [np.fromstring(text, sep=" ")] of the numeric library. *)
Variable fromstring : string -> list R.

(** [rotations.matrix_from_euler_xyz], which is not under src/ and of
    which the specification fixes only the type: "construction of a
    rotation matrix from Euler angles".  It answers [None] where the
    numeric library refuses its argument. *)
Variable matrix_from_euler_xyz : list R -> option M3.

(** [_parse_joint(joint, node, parent_name)].  The node is mutated in
    place; when the method raises, the caller's node table is dropped
    with it, so the result is the updated node or the exception. *)
Definition _parse_joint (joint : PageElement) (node : Node)
    (parent_name : string) : exn + Node :=
  let? jname := getitem joint "name" in
  let? jtype := getitem joint "type" in
  if str_in jtype ["planar"; "floating"; "continuous"; "prismatic"]
  then inl (UnsupportedJointType jtype)
  else if negb (str_in jtype ["revolute"; "fixed"])
  then inl (InvalidJointType jtype)
  else
    let origin := find "origin" joint in
    let? translation :=
      match origin with
      | Some o =>
          if has_attr o "xyz"
          then let? text := getitem o "xyz" in inr (fromstring text)
          else inr zeros3
      | None => inr zeros3
      end in
    let? rotation :=
      match origin with
      | Some o =>
          if has_attr o "rpy"
          then let? text := getitem o "rpy" in
               let? m := numeric (matrix_from_euler_xyz (fromstring text)) in
               inr (transpose3 m)
          else inr eye3
      | None => inr eye3
      end in
    let? c2p := transform_from rotation translation in
    let? axis :=
      if String.eqb jtype "revolute" then
        match find "axis" joint with
        | Some a =>
            if has_attr a "xyz"
            then let? text := getitem a "xyz" in inr (fromstring text)
            else inr [1; 0; 0]
        | None => inr [1; 0; 0]
        end
      else inr [1; 0; 0] in
    inr (mkNode (child node) parent_name c2p (Some jname) (Some axis)
                jtype).

(** The body of the loop over [robot.findAll("joint")]. *)
Definition load_joint (nodes : dict Node) (joint : PageElement)
    : exn + dict Node :=
  if negb (has_attr joint "name") then inl MissingJointName else
  let? joint_name := getitem joint "name" in
  if negb (has_attr joint "type") then inl (MissingJointType joint_name)
  else
  match find "parent" joint with
  | None => inl (MissingJointParent joint_name)
  | Some parent =>
  if negb (has_attr parent "link")
  then inl (MissingParentLinkName joint_name) else
  let? parent_name := getitem parent "link" in
  if negb (dict_mem parent_name nodes)
  then inl (UnknownParentLink parent_name joint_name) else
  match find "child" joint with
  | None => inl (MissingJointChild joint_name)
  | Some child =>
  if negb (has_attr child "link")
  then inl (MissingChildLinkName joint_name) else
  let? child_name := getitem child "link" in
  if negb (dict_mem child_name nodes)
  then inl (UnknownChildLink child_name joint_name) else
  let? node := dict_getitem child_name nodes in
  let? node := _parse_joint joint node parent_name in
  inr (dict_set child_name node nodes)
  end
  end.

(** [for joint in robot.findAll("joint"): ...]. *)
Fixpoint load_joints (joints : list PageElement) (nodes : dict Node)
    : exn + dict Node :=
  match joints with
  | [] => inr nodes
  | joint :: rest =>
      let? nodes := load_joint nodes joint in
      load_joints rest nodes
  end.

(** [load_urdf(urdf_xml)], on the tree [urdf] that the parser returns
    for [urdf_xml]. *)
Definition load_urdf (urdf : PageElement) : M unit :=
  match find "robot" urdf with
  | None => raise MissingRobotElement
  | Some robot =>
      if negb (has_attr robot "name") then raise MissingRobotName else
      let! robot_name := lift (getitem robot "name") in
      let! nodes := lift (load_links robot_name (findAll "link" robot) []) in
      let! nodes := lift (load_joints (findAll "joint" robot) nodes) in
      commit_nodes (dict_values nodes)
  end.

(** [load_urdf] on [urdf] gets as far as the joint element [joint] of
    the robot element [robot], with the node table [nodes]: the links
    are parsed and the joint elements before [joint] are accepted. *)
Definition reaches (urdf robot joint : PageElement) (nodes : dict Node)
    : Prop :=
  exists (robot_name : string) (nodes1 : dict Node)
         (before after : list PageElement),
    find "robot" urdf = Some robot /\
    attr robot "name" = Some robot_name /\
    load_links robot_name (findAll "link" robot) [] = inr nodes1 /\
    findAll "joint" robot = (before ++ joint :: after)%list /\
    load_joints before nodes1 = inr nodes.

End Loader.

(** ** The loader over a store that validates *)

(** [load_urdf] once more, with the two places left open where the
    inherited store and the numeric library can raise inside the last
    loop: the validation of the matrix in [add_transform], and
    [transform_from] on a translation that is not a 3-vector.  With a
    store that accepts every matrix and a library that refuses every
    such translation this is [load_urdf] above. *)

Section CheckedLoader.

Variable fromstring : string -> list R.
Variable matrix_from_euler_xyz : list R -> option M3.

(** [transformations.transform_from] on a translation array that is not
    of shape (3,), of which the specification says nothing: the matrix
    that the numeric library makes of it, [None] where it raises. *)
Variable transform_from_shape : M3 -> list R -> option M4.

(** The validation of the matrix in [TransformManager.add_transform],
    of which the specification says nothing. *)
Variable check_transform : M4 -> bool.

(** Modelled from the spec: [transformations.transform_from] is not under
    src/.  "Construction of a 4x4 homogeneous transform from a rotation +
    translation", the translation being a 3-vector; another shape is left
    to the numeric library. *)
Definition transform_from_any (r : M3) (p : list R) : exn + M4 :=
  match p with
  | [x; y; z] => inr (homogeneous r (mkV3 x y z))
  | _ => numeric (transform_from_shape r p)
  end.

(** Modelled from the spec: [TransformManager.add_transform] is not under
    src/.  [upsert_edge(child, parent, transform)] in a store that an
    error leaves "in a partially-populated state (no rollback/transaction
    semantics)": the call raises [ValueError] on a matrix that the
    validation refuses, and is [add_transform] on the others. *)
Definition add_transform_checked (from_frame to_frame : string) (A2B : M4)
    : M unit :=
  if check_transform A2B
  then call (add_transform from_frame to_frame A2B)
  else raise ValueError.

(** [add_joint(joint_name, from_frame, to_frame, child2parent, axis)]
    over that store: the record is written after the edge is accepted. *)
Definition add_joint_checked (joint_name from_frame to_frame : string)
    (child2parent : M4) (axis : list R) : M unit :=
  let! _ := add_transform_checked from_frame to_frame child2parent in
  call (fun self =>
    mkManager (frames self) (transforms self)
              (<[joint_name := (from_frame, to_frame, child2parent, axis)]>
                 (_joints self))).

(** The body of the last loop of [load_urdf]. *)
Definition commit_node_checked (node : Node) : M unit :=
  if String.eqb (joint_type node) "revolute" then
    match joint_name node, joint_axis node with
    | Some name, Some axis =>
        add_joint_checked name (child node) (parent node)
          (child2parent node) axis
    | _, _ => ret tt
    end
  else
    add_transform_checked (child node) (parent node) (child2parent node).

(** [for node in nodes.values(): ...]. *)
Fixpoint commit_nodes_checked (values : list Node) : M unit :=
  match values with
  | [] => ret tt
  | node :: rest =>
      let! _ := commit_node_checked node in commit_nodes_checked rest
  end.

(** [_parse_joint(joint, node, parent_name)]. *)
Definition _parse_joint_checked (joint : PageElement) (node : Node)
    (parent_name : string) : exn + Node :=
  let? jname := getitem joint "name" in
  let? jtype := getitem joint "type" in
  if str_in jtype ["planar"; "floating"; "continuous"; "prismatic"]
  then inl (UnsupportedJointType jtype)
  else if negb (str_in jtype ["revolute"; "fixed"])
  then inl (InvalidJointType jtype)
  else
    let origin := find "origin" joint in
    let? translation :=
      match origin with
      | Some o =>
          if has_attr o "xyz"
          then let? text := getitem o "xyz" in inr (fromstring text)
          else inr zeros3
      | None => inr zeros3
      end in
    let? rotation :=
      match origin with
      | Some o =>
          if has_attr o "rpy"
          then let? text := getitem o "rpy" in
               let? m := numeric (matrix_from_euler_xyz (fromstring text)) in
               inr (transpose3 m)
          else inr eye3
      | None => inr eye3
      end in
    let? c2p := transform_from_any rotation translation in
    let? axis :=
      if String.eqb jtype "revolute" then
        match find "axis" joint with
        | Some a =>
            if has_attr a "xyz"
            then let? text := getitem a "xyz" in inr (fromstring text)
            else inr [1; 0; 0]
        | None => inr [1; 0; 0]
        end
      else inr [1; 0; 0] in
    inr (mkNode (child node) parent_name c2p (Some jname) (Some axis)
                jtype).

(** The body of the loop over [robot.findAll("joint")]. *)
Definition load_joint_checked (nodes : dict Node) (joint : PageElement)
    : exn + dict Node :=
  if negb (has_attr joint "name") then inl MissingJointName else
  let? joint_name := getitem joint "name" in
  if negb (has_attr joint "type") then inl (MissingJointType joint_name)
  else
  match find "parent" joint with
  | None => inl (MissingJointParent joint_name)
  | Some parent =>
  if negb (has_attr parent "link")
  then inl (MissingParentLinkName joint_name) else
  let? parent_name := getitem parent "link" in
  if negb (dict_mem parent_name nodes)
  then inl (UnknownParentLink parent_name joint_name) else
  match find "child" joint with
  | None => inl (MissingJointChild joint_name)
  | Some child =>
  if negb (has_attr child "link")
  then inl (MissingChildLinkName joint_name) else
  let? child_name := getitem child "link" in
  if negb (dict_mem child_name nodes)
  then inl (UnknownChildLink child_name joint_name) else
  let? node := dict_getitem child_name nodes in
  let? node := _parse_joint_checked joint node parent_name in
  inr (dict_set child_name node nodes)
  end
  end.

(** [for joint in robot.findAll("joint"): ...]. *)
Fixpoint load_joints_checked (joints : list PageElement) (nodes : dict Node)
    : exn + dict Node :=
  match joints with
  | [] => inr nodes
  | joint :: rest =>
      let? nodes := load_joint_checked nodes joint in
      load_joints_checked rest nodes
  end.

(** [load_urdf(urdf_xml)] over that store. *)
Definition load_urdf_checked (urdf : PageElement) : M unit :=
  match find "robot" urdf with
  | None => raise MissingRobotElement
  | Some robot =>
      if negb (has_attr robot "name") then raise MissingRobotName else
      let! robot_name := lift (getitem robot "name") in
      let! nodes := lift (load_links robot_name (findAll "link" robot) []) in
      let! nodes :=
        lift (load_joints_checked (findAll "joint" robot) nodes) in
      commit_nodes_checked (dict_values nodes)
  end.

End CheckedLoader.

(** ** Vocabulary for the statements *)

(** The link [k] is declared by a link element of the robot element,
    wherever the element stands in it. *)
Definition declared (robot : PageElement) (k : string) : Prop :=
  exists link, link ∈ findAll "link" robot /\ attr link "name" = Some k.

(** A root link of the robot element: a link that a link element
    declares and that no joint element names as its child. *)
Definition root_link (robot : PageElement) (c : string) : Prop :=
  declared robot c /\
  forall joint, joint ∈ findAll "joint" robot ->
                joint_link "child" joint ≠ Some c.

(** The axis that [_parse_joint] leaves on the node of a joint element
    of type [jt]: the xyz attribute of the axis element of a revolute
    joint, and (1, 0, 0) otherwise. *)
Definition axis_as_declared (fromstring : string -> list R)
    (joint : PageElement) (jt : string) (axis : list R) : Prop :=
  if String.eqb jt "revolute" then
    match find "axis" joint with
    | Some a =>
        match attr a "xyz" with
        | Some text => axis = fromstring text
        | None => axis = [1; 0; 0]
        end
    | None => axis = [1; 0; 0]
    end
  else axis = [1; 0; 0].

(** A node as [_parse_joint] leaves it when its type is revolute: name
    and axis are set. *)
Definition node_filled (n : Node) : Prop :=
  joint_type n = "revolute" ->
  is_Some (joint_name n) /\ is_Some (joint_axis n).

(** The node table of [load_urdf]: keys are distinct, every node is
    stored under its own [child] name. *)
Definition table_ok (nodes : dict Node) : Prop :=
  NoDup nodes.*1 /\
  forall k n, (k, n) ∈ nodes -> child n = k /\ node_filled n.

(** Two nodes that are equal, or fresh nodes of the same link under the
    robot names [r1] and [r2]. *)
Definition same_but_root (r1 r2 : string) (n1 n2 : Node) : Prop :=
  n1 = n2 \/ exists c, n1 = Node_init c r1 /\ n2 = Node_init c r2.

(** Node tables with the same keys, in the same order, and nodes that
    are the same but for the robot name. *)
Definition tables_agree (r1 r2 : string) (d1 d2 : dict Node) : Prop :=
  Forall2 (fun e1 e2 => e1.1 = e2.1 /\ same_but_root r1 r2 e1.2 e2.2) d1 d2.

(** Two managers with the same joint registry, the same edges towards
    every frame other than [r1] and [r2], and the same frames other than
    [r1] and [r2]. *)
Definition agree (r1 r2 : string) (s1 s2 : UrdfTransformManager) : Prop :=
  _joints s1 = _joints s2 /\
  (forall c p, p ≠ r1 -> p ≠ r2 ->
     transforms s1 !! (c, p) = transforms s2 !! (c, p)) /\
  (forall f, f ≠ r1 -> f ≠ r2 -> f ∈ frames s1 <-> f ∈ frames s2).

(** Two outcomes that raise the same exception, or return related
    values. *)
Definition outcomes_agree {A} (P : A -> A -> Prop) (o1 o2 : exn + A) : Prop :=
  match o1, o2 with
  | inl e1, inl e2 => e1 = e2
  | inr a1, inr a2 => P a1 a2
  | _, _ => False
  end.

(** ** Sample inputs *)

(** A manager with one registered joint, about the z axis. *)
Definition sample_manager : UrdfTransformManager :=
  add_joint "j1" "arm" "base" eye4 [0; 0; 1] new_manager.

(** The manager of the end-to-end scenario: one registered joint about
    the z axis, with the origin xyz = (1, 0, 0). *)
Definition offset_manager : UrdfTransformManager :=
  add_joint "j1" "arm" "base" (homogeneous eye3 (mkV3 1 0 0)) [0; 0; 1]
    new_manager.

(** The numeric library on the texts of the sample documents. *)
Definition sample_fromstring (text : string) : list R :=
  if String.eqb text "1 0 0" then [1; 0; 0]
  else if String.eqb text "0 0 1" then [0; 0; 1]
  else if String.eqb text "0 0 1.5708" then [0; 0; PI / 2]
  else [].

(** The quarter turn about z, which stands for the Euler matrix of
    rpy = (0, 0, pi/2) in the sample documents. *)
Definition quarter_turn_z : M3 :=
  mkM3 (mkV3 0 (-1) 0) (mkV3 1 0 0) (mkV3 0 0 1).
Definition sample_euler (e : list R) : option M3 :=
  match e with
  | [_; _; _] => Some quarter_turn_z
  | _ => None
  end.

Definition sample_joint : PageElement :=
  Tag "joint" [("name", "j1"); ("type", "revolute")]
    [Tag "parent" [("link", "base")] [];
     Tag "child" [("link", "arm")] [];
     Tag "origin" [("xyz", "1 0 0"); ("rpy", "0 0 1.5708")] [];
     Tag "axis" [("xyz", "0 0 1")] []].

Definition sample_robot : PageElement :=
  Tag "robot" [("name", "r")]
    [Tag "link" [("name", "base")] [];
     Tag "link" [("name", "arm")] [];
     sample_joint].

(** The document of the end-to-end scenario: robot "r", links "base" and
    "arm", one revolute joint "j1" from "arm" to "base". *)
Definition sample_urdf : PageElement := Tag "[document]" [] [sample_robot].

(** A joint that names a parent link which no link element declares, and
    stands before the link elements. *)
Definition ghost_joint : PageElement :=
  Tag "joint" [("name", "j1"); ("type", "fixed")]
    [Tag "parent" [("link", "ghost")] [];
     Tag "child" [("link", "arm")] []].
Definition ghost_robot : PageElement :=
  Tag "robot" [("name", "r")]
    [ghost_joint;
     Tag "link" [("name", "base")] [];
     Tag "link" [("name", "arm")] []].
Definition ghost_urdf : PageElement := Tag "[document]" [] [ghost_robot].

(** A joint of a kind that the loader does not support. *)
Definition continuous_joint : PageElement :=
  Tag "joint" [("name", "j1"); ("type", "continuous")]
    [Tag "parent" [("link", "base")] [];
     Tag "child" [("link", "arm")] []].
Definition continuous_robot : PageElement :=
  Tag "robot" [("name", "r")]
    [Tag "link" [("name", "base")] [];
     Tag "link" [("name", "arm")] [];
     continuous_joint].
Definition continuous_urdf : PageElement :=
  Tag "[document]" [] [continuous_robot].

(** Two joints with the same child link: a revolute one, then a fixed
    one. *)
Definition shared_child_joint1 : PageElement :=
  Tag "joint" [("name", "j1"); ("type", "revolute")]
    [Tag "parent" [("link", "base")] [];
     Tag "child" [("link", "arm")] []].
Definition shared_child_joint2 : PageElement :=
  Tag "joint" [("name", "j2"); ("type", "fixed")]
    [Tag "parent" [("link", "base")] [];
     Tag "child" [("link", "arm")] []].
Definition shared_child_robot : PageElement :=
  Tag "robot" [("name", "r")]
    [Tag "link" [("name", "base")] [];
     Tag "link" [("name", "arm")] [];
     shared_child_joint1;
     shared_child_joint2].
Definition shared_child_urdf : PageElement :=
  Tag "[document]" [] [shared_child_robot].

(** Two joints with the same name and different child links: a fixed
    one and a revolute one. *)
Definition shared_name_joint1 : PageElement :=
  Tag "joint" [("name", "j"); ("type", "fixed")]
    [Tag "parent" [("link", "base")] [];
     Tag "child" [("link", "arm")] []].
Definition shared_name_joint2 : PageElement :=
  Tag "joint" [("name", "j"); ("type", "revolute")]
    [Tag "parent" [("link", "arm")] [];
     Tag "child" [("link", "hand")] []].
Definition shared_name_robot : PageElement :=
  Tag "robot" [("name", "r")]
    [Tag "link" [("name", "base")] [];
     Tag "link" [("name", "arm")] [];
     Tag "link" [("name", "hand")] [];
     shared_name_joint1;
     shared_name_joint2].
Definition shared_name_urdf : PageElement :=
  Tag "[document]" [] [shared_name_robot].

(** A document with one fixed joint, "j1". *)
Definition fixed_joint : PageElement :=
  Tag "joint" [("name", "j1"); ("type", "fixed")]
    [Tag "parent" [("link", "base")] [];
     Tag "child" [("link", "arm")] []].
Definition fixed_robot : PageElement :=
  Tag "robot" [("name", "r")]
    [Tag "link" [("name", "base")] [];
     Tag "link" [("name", "arm")] [];
     fixed_joint].
Definition fixed_urdf : PageElement := Tag "[document]" [] [fixed_robot].

(** Two documents that differ only in the name of the robot. *)
Definition named_urdf (robot_name : string) : PageElement :=
  Tag "[document]" []
    [Tag "robot" [("name", robot_name)]
       [Tag "link" [("name", "base")] []]].

(** The document of the end-to-end scenario under the robot name
    [robot_name]. *)
Definition named_arm_urdf (robot_name : string) : PageElement :=
  Tag "[document]" []
    [Tag "robot" [("name", robot_name)]
       [Tag "link" [("name", "base")] [];
        Tag "link" [("name", "arm")] [];
        sample_joint]].

(** A document whose first joint is valid and whose second joint is
    not. *)
Definition late_error_urdf : PageElement :=
  Tag "[document]" []
    [Tag "robot" [("name", "r")]
       [Tag "link" [("name", "base")] [];
        Tag "link" [("name", "arm")] [];
        Tag "link" [("name", "hand")] [];
        Tag "joint" [("name", "j1"); ("type", "fixed")]
          [Tag "parent" [("link", "base")] [];
           Tag "child" [("link", "arm")] []];
        Tag "joint" [("name", "j2"); ("type", "screw")]
          [Tag "parent" [("link", "arm")] [];
           Tag "child" [("link", "hand")] []]]].




(** A manager with two registered joints. *)
Definition two_joint_manager : UrdfTransformManager :=
  add_joint "j2" "hand" "arm" eye4 [1; 0; 0] sample_manager.

(** A joint without a type. *)
Definition typeless_joint : PageElement :=
  Tag "joint" [("name", "j1")]
    [Tag "parent" [("link", "base")] [];
     Tag "child" [("link", "arm")] []].
Definition typeless_robot : PageElement :=
  Tag "robot" [("name", "r")]
    [Tag "link" [("name", "base")] [];
     Tag "link" [("name", "arm")] [];
     typeless_joint].
Definition typeless_urdf : PageElement := Tag "[document]" [] [typeless_robot].

(** * Properties *)

(** ** The transform algebra *)

Lemma mmul_eye4_r (T : M4) : mmul T eye4 = T.
Proof.
  destruct T as [[] [] [] []]. unfold mmul, vmul4, dot4; simpl.
  repeat f_equal; ring.
Qed.

Lemma mapply_mmul (a b : M4) (p : V4) :
  mapply (mmul a b) p = mapply a (mapply b p).
Proof.
  destruct a as [[] [] [] []], b as [[] [] [] []], p.
  unfold mapply, mmul, vmul4, dot4; simpl. f_equal; ring.
Qed.

Lemma matrix_from_axis_angle_zero (ux uy uz : R) :
  matrix_from_axis_angle [ux; uy; uz; 0] = inr eye3.
Proof.
  unfold matrix_from_axis_angle, eye3. cbv zeta. rewrite cos_0, sin_0.
  repeat f_equal; ring.
Qed.

Lemma rotation_block_homogeneous (r : M3) (p : V3) :
  rotation_block (homogeneous r p) = r.
Proof. by destruct r as [[] [] []], p. Qed.

Lemma translation_of_homogeneous (r : M3) (p : V3) :
  translation_of (homogeneous r p) = p.
Proof. by destruct r as [[] [] []], p. Qed.

Lemma norm_vector_unit (v : V3) :
  0 < dot3 v v -> dot3 (norm_vector v) (norm_vector v) = 1.
Proof.
  destruct v as [ux uy uz]. unfold norm_vector, dot3. cbn [x3 y3 z3].
  intros H. set (n := sqrt _).
  assert (Hn : n * n = ux * ux + uy * uy + uz * uz) by (apply sqrt_sqrt; lra).
  assert (Hpos : 0 < n) by (apply sqrt_lt_R0; exact H).
  replace (ux / n * (ux / n) + uy / n * (uy / n) + uz / n * (uz / n))
    with ((ux * ux + uy * uy + uz * uz) / (n * n)) by (field; lra).
  rewrite Hn. field. lra.
Qed.

Lemma norm_vector_scaled (v : V3) :
  0 < dot3 v v ->
  v = mkV3 (sqrt (dot3 v v) * x3 (norm_vector v))
           (sqrt (dot3 v v) * y3 (norm_vector v))
           (sqrt (dot3 v v) * z3 (norm_vector v)).
Proof.
  intros H. assert (Hpos : 0 < sqrt (dot3 v v)) by (apply sqrt_lt_R0; exact H).
  destruct v as [ux uy uz]. unfold norm_vector. cbn [x3 y3 z3].
  f_equal; field; lra.
Qed.

(** Rodrigues' formula on a unit axis gives a rotation about that axis
    by the angle. *)
Lemma rodrigues_rotation (vx vy vz c s : R) :
  vx * vx + vy * vy + vz * vz = 1 -> c * c + s * s = 1 ->
  let ci := 1 - c in
  let m := mkM3
    (mkV3 (ci * vx * vx + c) (ci * vx * vy - vz * s) (ci * vx * vz + vy * s))
    (mkV3 (ci * vy * vx + vz * s) (ci * vy * vy + c) (ci * vy * vz - vx * s))
    (mkV3 (ci * vz * vx - vy * s) (ci * vz * vy + vx * s) (ci * vz * vz + c)) in
  is_rotation m /\ mapply3 m (mkV3 vx vy vz) = mkV3 vx vy vz /\
  trace3 m = 1 + 2 * c.
Proof.
  intros Hu Hc ci m. unfold ci in m. unfold m, is_rotation.
  unfold mmul3, mapply3, transpose3, dot3, det3, trace3, eye3.
  cbn [x3 y3 z3 r3_1 r3_2 r3_3].
  split; [split|split].
  - f_equal; f_equal; nsatz.
  - nsatz.
  - f_equal; nsatz.
  - nsatz.
Qed.

(** The rotation that [matrix_from_axis_angle] builds about an axis that
    is not zero. *)
Lemma matrix_from_axis_angle_rotation (ux uy uz angle : R) :
  0 < dot3 (mkV3 ux uy uz) (mkV3 ux uy uz) ->
  exists Rj,
    matrix_from_axis_angle [ux; uy; uz; angle] = inr Rj /\
    is_rotation Rj /\
    mapply3 Rj (mkV3 ux uy uz) = mkV3 ux uy uz /\
    trace3 Rj = 1 + 2 * cos angle.
Proof.
  intros Haxis. eexists. split; [reflexivity|]. cbv zeta.
  pose proof (norm_vector_unit _ Haxis) as Hunit.
  pose proof (norm_vector_scaled _ Haxis) as Hscaled.
  set (v := norm_vector (mkV3 ux uy uz)) in *.
  set (n := sqrt _) in Hscaled.
  assert (Hcs : cos angle * cos angle + sin angle * sin angle = 1).
  { pose proof (sin2_cos2 angle) as H. unfold Rsqr in H. lra. }
  destruct (rodrigues_rotation (x3 v) (y3 v) (z3 v) (cos angle) (sin angle)
              Hunit Hcs) as (Hrot & Hfix & Htr).
  split; [exact Hrot|]. split; [|exact Htr].
  rewrite Hscaled. cbn [x3 y3 z3] in *.
  unfold mapply3, dot3 in *. cbn [x3 y3 z3 r3_1 r3_2 r3_3] in *.
  injection Hfix as H1 H2 H3.
  f_equal; nsatz.
Qed.

Lemma rotation_block_mmul_joint (T : M4) (r : M3) :
  rotation_block (mmul T (homogeneous r (mkV3 0 0 0))) =
  mmul3 (rotation_block T) r.
Proof.
  destruct T as [[] [] [] []], r as [[] [] []].
  unfold rotation_block, mmul, mmul3, vmul4, dot4, dot3; simpl.
  f_equal; f_equal; ring.
Qed.

Lemma translation_of_mmul_joint (T : M4) (r : M3) :
  translation_of (mmul T (homogeneous r (mkV3 0 0 0))) = translation_of T.
Proof.
  destruct T as [[] [] [] []], r as [[] [] []].
  unfold translation_of, mmul, vmul4, dot4; simpl.
  f_equal; ring.
Qed.

(** ** The joint registry *)

Lemma add_transform_twice c p A B self :
  add_transform c p B (add_transform c p A self) = add_transform c p B self.
Proof.
  unfold add_transform; simpl. f_equal.
  - by rewrite (assoc_L (∪) _ _ (frames self)), (idemp_L (∪) _).
  - apply insert_insert_eq.
Qed.

(** What [set_joint] does on a registered joint whose axis is a
    3-vector. *)
Lemma set_joint_registered self name c p T ux uy uz angle :
  _joints self !! name = Some (c, p, T, [ux; uy; uz]) ->
  exists Rj,
    matrix_from_axis_angle [ux; uy; uz; angle] = inr Rj /\
    set_joint name angle self =
      (add_transform c p (concat (homogeneous Rj (mkV3 0 0 0)) T) self,
       inr tt).
Proof.
  intros Hreg. unfold set_joint. rewrite Hreg. simpl.
  eexists. split; reflexivity.
Qed.

Lemma set_joint_keeps_registry name angle self :
  _joints (set_joint name angle self).1 = _joints self.
Proof.
  unfold set_joint. destruct (_joints self !! name) as [[[[c p] T] axis]|];
    [|done].
  unfold bind, lift, call.
  destruct (matrix_from_axis_angle (axis ++ [angle])) as [e|Rj]; [done|].
  by destruct (transform_from Rj zeros3).
Qed.

(** C1: for a registered revolute joint (axis a 3-vector) and any angle,
    [set_joint] commits as the (child, parent) edge, and changes nothing
    else, the transform [concat joint2A child2parent], where [joint2A]
    has zero translation and as rotation block the matrix that
    [matrix_from_axis_angle] builds from the stored axis and the angle:
    for an axis that is not zero a rotation matrix that fixes the axis
    and has trace 1 + 2 cos(angle).  The committed matrix is the product
    of the stored zero transform with the joint-rotation transform: it
    maps a point by the joint rotation first and the zero transform
    second, its rotation block is the zero transform's times the joint
    rotation, and its translation is the zero transform's, untouched by
    the joint rotation. *)
Theorem set_joint_commits_rotation_then_offset
    (self : UrdfTransformManager) (name c p : string) (T : M4)
    (ux uy uz angle : R)
    (Hreg : _joints self !! name = Some (c, p, T, [ux; uy; uz])) :
  exists (Rj : M3) (joint2A : M4) (self' : UrdfTransformManager),
    matrix_from_axis_angle [ux; uy; uz; angle] = inr Rj /\
    (0 < dot3 (mkV3 ux uy uz) (mkV3 ux uy uz) ->
     is_rotation Rj /\
     mapply3 Rj (mkV3 ux uy uz) = mkV3 ux uy uz /\
     trace3 Rj = 1 + 2 * cos angle) /\
    transform_from Rj zeros3 = inr joint2A /\
    rotation_block joint2A = Rj /\
    translation_of joint2A = mkV3 0 0 0 /\
    set_joint name angle self = (self', inr tt) /\
    self' = add_transform c p (concat joint2A T) self /\
    transforms self' !! (c, p) = Some (mmul T joint2A) /\
    rotation_block (mmul T joint2A) = mmul3 (rotation_block T) Rj /\
    translation_of (mmul T joint2A) = translation_of T /\
    forall pt : V4,
      mapply (mmul T joint2A) pt = mapply T (mapply joint2A pt).
Proof.
  destruct (set_joint_registered self name c p T ux uy uz angle Hreg)
    as (Rj & HRj & Hset).
  exists Rj, (homogeneous Rj (mkV3 0 0 0)). eexists.
  split; [exact HRj|].
  split.
  { intros Haxis.
    destruct (matrix_from_axis_angle_rotation ux uy uz angle Haxis)
      as (Rj' & HRj' & Hrot).
    rewrite HRj in HRj'. by injection HRj' as <-. }
  split; [reflexivity|].
  split; [apply rotation_block_homogeneous|].
  split; [apply translation_of_homogeneous|].
  split; [exact Hset|].
  split; [reflexivity|].
  split; [apply lookup_insert_eq|].
  split; [apply rotation_block_mmul_joint|].
  split; [apply translation_of_mmul_joint|].
  intros pt. apply mapply_mmul.
Qed.

Lemma set_joint_commits_rotation_then_offset_witness :
  _joints offset_manager !! "j1" =
    Some ("arm", "base", homogeneous eye3 (mkV3 1 0 0), [0; 0; 1]) /\
  0 < dot3 (mkV3 0 0 1) (mkV3 0 0 1) /\
  exists (Rj : M3) (joint2A : M4) (self' : UrdfTransformManager),
    matrix_from_axis_angle [0; 0; 1; PI / 2] = inr Rj /\
    (0 < dot3 (mkV3 0 0 1) (mkV3 0 0 1) ->
     is_rotation Rj /\
     mapply3 Rj (mkV3 0 0 1) = mkV3 0 0 1 /\
     trace3 Rj = 1 + 2 * cos (PI / 2)) /\
    transform_from Rj zeros3 = inr joint2A /\
    rotation_block joint2A = Rj /\
    translation_of joint2A = mkV3 0 0 0 /\
    set_joint "j1" (PI / 2) offset_manager = (self', inr tt) /\
    self' = add_transform "arm" "base"
              (concat joint2A (homogeneous eye3 (mkV3 1 0 0)))
              offset_manager /\
    transforms self' !! ("arm", "base") =
      Some (mmul (homogeneous eye3 (mkV3 1 0 0)) joint2A) /\
    rotation_block (mmul (homogeneous eye3 (mkV3 1 0 0)) joint2A) =
      mmul3 (rotation_block (homogeneous eye3 (mkV3 1 0 0))) Rj /\
    translation_of (mmul (homogeneous eye3 (mkV3 1 0 0)) joint2A) =
      translation_of (homogeneous eye3 (mkV3 1 0 0)) /\
    forall pt : V4,
      mapply (mmul (homogeneous eye3 (mkV3 1 0 0)) joint2A) pt =
      mapply (homogeneous eye3 (mkV3 1 0 0)) (mapply joint2A pt).
Proof.
  split; [reflexivity|].
  split; [unfold dot3; simpl; lra|].
  apply (set_joint_commits_rotation_then_offset offset_manager "j1").
  reflexivity.
Defined.

(** The end-to-end scenario of the specification: a joint from "arm" to
    "base" with origin xyz = (1, 0, 0) and axis z, set to the angle
    pi/2, commits the edge with translation (1, 0, 0) and the quarter
    turn about z as rotation. *)
Lemma quarter_turn_keeps_offset :
  exists self',
    set_joint "j1" (PI / 2) offset_manager = (self', inr tt) /\
    transforms self' !! ("arm", "base") =
      Some (mkM4 (mkV4 0 (-1) 0 1) (mkV4 1 0 0 0) (mkV4 0 0 1 0)
                 (mkV4 0 0 0 1)).
Proof.
  eexists. split; [reflexivity|].
  cbn [fst]. unfold add_transform. cbn [transforms].
  rewrite lookup_insert_eq. f_equal.
  unfold concat, mmul, vmul4, dot4, homogeneous, norm_vector, dot3, eye3.
  cbn [x3 y3 z3 r3_1 r3_2 r3_3 x4 y4 z4 w4 r4_1 r4_2 r4_3 r4_4 transpose4].
  replace (0 * 0 + 0 * 0 + 1 * 1) with 1 by ring.
  rewrite sqrt_1, cos_PI2, sin_PI2.
  repeat f_equal; field.
Qed.

(** C2: [add_joint(name, c, p, T, axis)] commits [T] as the (c, p) edge,
    and [set_joint(name, 0.0)] commits exactly [T] again, and changes
    nothing else, from every state that holds the joint's record:
    straight after the registration, where the manager stays what it
    was, and after the joint was set to any angle, where the manager is
    again what it was after the registration. *)
Theorem angle_zero_identity
    (self : UrdfTransformManager) (name c p : string) (T : M4)
    (ux uy uz : R) :
  let registered := add_joint name c p T [ux; uy; uz] self in
  transforms registered !! (c, p) = Some T /\
  _joints registered !! name = Some (c, p, T, [ux; uy; uz]) /\
  (forall s : UrdfTransformManager,
     _joints s !! name = Some (c, p, T, [ux; uy; uz]) ->
     set_joint name 0 s = (add_transform c p T s, inr tt) /\
     transforms (add_transform c p T s) !! (c, p) = Some T) /\
  set_joint name 0 registered = (registered, inr tt) /\
  (forall angle : R,
     exists moved : UrdfTransformManager,
       set_joint name angle registered = (moved, inr tt) /\
       set_joint name 0 moved = (registered, inr tt)).
Proof.
  intros registered.
  assert (Hreg : _joints registered !! name = Some (c, p, T, [ux; uy; uz]))
    by apply lookup_insert_eq.
  assert (Hedge : transforms registered !! (c, p) = Some T)
    by apply lookup_insert_eq.
  assert (Hzero : forall s,
            _joints s !! name = Some (c, p, T, [ux; uy; uz]) ->
            set_joint name 0 s = (add_transform c p T s, inr tt)).
  { intros s Hs.
    destruct (set_joint_registered s name c p T ux uy uz 0 Hs)
      as (Rj & HRj & Hset).
    rewrite matrix_from_axis_angle_zero in HRj. injection HRj as <-.
    assert (Hsame : concat (homogeneous eye3 (mkV3 0 0 0)) T = T)
      by apply mmul_eye4_r.
    by rewrite Hsame in Hset. }
  assert (Hback : add_transform c p T registered = registered).
  { unfold registered, add_joint. cbn [frames transforms _joints].
    unfold add_transform at 1. cbn [frames transforms _joints].
    f_equal.
    - cbn. by rewrite (assoc_L (∪) _ _ (frames self)), (idemp_L (∪) _).
    - cbn. apply insert_insert_eq. }
  split; [exact Hedge|]. split; [exact Hreg|].
  split; [|split].
  - intros s Hs. split; [by apply Hzero|apply lookup_insert_eq].
  - by rewrite (Hzero _ Hreg), Hback.
  - intros angle.
    destruct (set_joint_registered registered name c p T ux uy uz angle Hreg)
      as (Rj & HRj & Hset).
    eexists. split; [exact Hset|].
    rewrite Hzero by exact Hreg.
    by rewrite add_transform_twice, Hback.
Qed.

(** The edge that the quarter turn commits is not the zero transform,
    and the angle 0 brings the zero transform back. *)
Lemma angle_zero_identity_witness :
  exists moved : UrdfTransformManager,
    set_joint "j1" (PI / 2) offset_manager = (moved, inr tt) /\
    transforms moved !! ("arm", "base") <>
      Some (homogeneous eye3 (mkV3 1 0 0)) /\
    set_joint "j1" 0 moved = (offset_manager, inr tt) /\
    transforms offset_manager !! ("arm", "base") =
      Some (homogeneous eye3 (mkV3 1 0 0)).
Proof.
  pose proof (angle_zero_identity new_manager "j1" "arm" "base"
                (homogeneous eye3 (mkV3 1 0 0)) 0 0 1) as H.
  cbv zeta in H. fold offset_manager in H.
  destruct H as (Hedge & _ & _ & _ & Hmoved).
  destruct (Hmoved (PI / 2)) as (moved & Hset & Hzero).
  exists moved. split; [exact Hset|]. split; [|split; [exact Hzero|exact Hedge]].
  destruct quarter_turn_keeps_offset as (self' & Hset' & Hedge').
  rewrite Hset in Hset'. injection Hset' as <-.
  rewrite Hedge'. intros Heq. injection Heq as Heq _. lra.
Defined.

(** C7: [set_joint] with the same name and angle twice in a row commits
    the same edge transform both times, the second call leaving the
    manager as the first left it; and no call of [set_joint], whatever its
    arguments and outcome, changes the joint registry. *)
Theorem set_joint_idempotent
    (self : UrdfTransformManager) (name c p : string) (T : M4)
    (ux uy uz angle : R)
    (Hreg : _joints self !! name = Some (c, p, T, [ux; uy; uz])) :
  (exists (E : M4) (self1 self2 : UrdfTransformManager),
      set_joint name angle self = (self1, inr tt) /\
      set_joint name angle self1 = (self2, inr tt) /\
      transforms self1 !! (c, p) = Some E /\
      transforms self2 !! (c, p) = Some E /\
      self2 = self1 /\
      _joints self1 !! name = Some (c, p, T, [ux; uy; uz])) /\
  (forall (name' : string) (angle' : R) (s : UrdfTransformManager),
      _joints (set_joint name' angle' s).1 = _joints s).
Proof.
  split; [|intros; apply set_joint_keeps_registry].
  destruct (set_joint_registered self name c p T ux uy uz angle Hreg)
    as (Rj & HRj & Hset).
  set (E := concat (homogeneous Rj (mkV3 0 0 0)) T) in *.
  set (self1 := add_transform c p E self) in *.
  assert (Hreg1 : _joints self1 !! name = Some (c, p, T, [ux; uy; uz]))
    by exact Hreg.
  destruct (set_joint_registered self1 name c p T ux uy uz angle Hreg1)
    as (Rj' & HRj' & Hset').
  assert (Rj' = Rj) as -> by congruence.
  fold E in Hset'. unfold self1 in Hset' at 2.
  rewrite add_transform_twice in Hset'. fold self1 in Hset'.
  exists E, self1, self1. repeat split; try done.
  all: apply lookup_insert_eq.
Qed.

Lemma set_joint_idempotent_witness :
  _joints sample_manager !! "j1" = Some ("arm", "base", eye4, [0; 0; 1]) /\
  (exists (E : M4) (self1 self2 : UrdfTransformManager),
      set_joint "j1" 1 sample_manager = (self1, inr tt) /\
      set_joint "j1" 1 self1 = (self2, inr tt) /\
      transforms self1 !! ("arm", "base") = Some E /\
      transforms self2 !! ("arm", "base") = Some E /\
      self2 = self1 /\
      _joints self1 !! "j1" = Some ("arm", "base", eye4, [0; 0; 1])) /\
  (forall (name' : string) (angle' : R) (s : UrdfTransformManager),
      _joints (set_joint name' angle' s).1 = _joints s).
Proof.
  split; [reflexivity|].
  apply (set_joint_idempotent sample_manager "j1" "arm" "base" eye4 0 0 1 1).
  reflexivity.
Defined.

(** ** Python dicts *)

Section DictFacts.
Context {V : Type}.
Implicit Types (d : dict V) (k : string) (v : V).

Lemma dict_get_set_eq k v d : dict_get k (dict_set k v d) = Some v.
Proof.
  induction d as [|[k' v'] d IH]; simpl.
  - by rewrite String.eqb_refl.
  - destruct (String.eqb k k') eqn:E; simpl.
    + by rewrite String.eqb_refl.
    + by rewrite E.
Qed.

Lemma dict_get_set_ne k k' v d :
  k ≠ k' -> dict_get k' (dict_set k v d) = dict_get k' d.
Proof.
  intros Hne. induction d as [|[k0 v0] d IH]; simpl.
  - apply String.eqb_neq in Hne. rewrite String.eqb_sym in Hne. by rewrite Hne.
  - destruct (String.eqb k k0) eqn:E; simpl.
    + apply String.eqb_eq in E. subst k0.
      destruct (String.eqb k' k) eqn:E'; [|done].
      apply String.eqb_eq in E'. congruence.
    + by rewrite IH.
Qed.

Lemma dict_mem_true k d : dict_mem k d = true <-> is_Some (dict_get k d).
Proof.
  unfold dict_mem. destruct (dict_get k d); split; intros H;
    try done; try (by eexists); by destruct H.
Qed.

Lemma dict_mem_false k d : dict_mem k d = false <-> dict_get k d = None.
Proof. unfold dict_mem. by destruct (dict_get k d). Qed.

Lemma dict_get_Some_elem k v d : dict_get k d = Some v -> (k, v) ∈ d.
Proof.
  induction d as [|[k' v'] d IH]; simpl; [done|].
  destruct (String.eqb k k') eqn:E.
  - apply String.eqb_eq in E. intros [= ->]. subst. by left.
  - intros H. right. by apply IH.
Qed.

Lemma dict_get_None_keys k d : dict_get k d = None <-> k ∉ d.*1.
Proof.
  induction d as [|[k' v'] d IH]; simpl.
  - split; [|done]. intros _. apply not_elem_of_nil.
  - rewrite not_elem_of_cons.
    destruct (String.eqb k k') eqn:E.
    + apply String.eqb_eq in E. subst. split; [done|]. by intros [? _].
    + apply String.eqb_neq in E. rewrite IH. tauto.
Qed.

Lemma dict_elem_get k v d :
  NoDup d.*1 -> (k, v) ∈ d -> dict_get k d = Some v.
Proof.
  induction d as [|[k' v'] d IH]; simpl.
  - intros _ H. by apply elem_of_nil in H.
  - intros Hnd Hin. apply NoDup_cons in Hnd as [Hk Hnd].
    apply elem_of_cons in Hin as [Hin|Hin].
    + injection Hin as -> ->. by rewrite String.eqb_refl.
    + destruct (String.eqb k k') eqn:E.
      * apply String.eqb_eq in E. subst. exfalso. apply Hk.
        apply list_elem_of_fmap. by exists (k', v).
      * by apply IH.
Qed.

Lemma dict_set_keys k k' v d : k' ∈ (dict_set k v d).*1 <-> k' = k \/ k' ∈ d.*1.
Proof.
  induction d as [|[k0 v0] d IH]; simpl.
  - rewrite elem_of_cons. rewrite elem_of_nil. tauto.
  - destruct (String.eqb k k0) eqn:E; simpl.
    + apply String.eqb_eq in E. subst. rewrite !elem_of_cons. tauto.
    + rewrite !elem_of_cons, IH. tauto.
Qed.

Lemma dict_set_keys_NoDup k v d :
  NoDup d.*1 -> NoDup (dict_set k v d).*1.
Proof.
  induction d as [|[k' v'] d IH]; simpl; intros Hnd.
  - apply NoDup_singleton.
  - apply NoDup_cons in Hnd as [Hk Hnd].
    destruct (String.eqb k k') eqn:E; simpl.
    + apply String.eqb_eq in E. subst. by apply NoDup_cons.
    + apply String.eqb_neq in E. apply NoDup_cons. split; [|by apply IH].
      rewrite dict_set_keys. intros [->|H]; [done|]. by apply Hk.
Qed.

Lemma dict_get_elem k v d :
  NoDup d.*1 -> dict_get k d = Some v <-> (k, v) ∈ d.
Proof. intros H. split; [apply dict_get_Some_elem | by apply dict_elem_get]. Qed.

Lemma dict_set_keys_same k v d :
  is_Some (dict_get k d) -> (dict_set k v d).*1 = d.*1.
Proof.
  induction d as [|[k' v'] d IH]; simpl; intros [x Hx]; [done|].
  destruct (String.eqb k k') eqn:E; simpl.
  - apply String.eqb_eq in E. by subst.
  - f_equal. apply IH. by eexists.
Qed.

Lemma dict_get_keys_eq k d d' : d.*1 = d'.*1 -> dict_mem k d = dict_mem k d'.
Proof.
  intros H. destruct (dict_mem k d') eqn:E.
  - apply dict_mem_true. apply dict_mem_true in E.
    destruct (dict_get k d) eqn:E2; [by eexists|].
    apply dict_get_None_keys in E2. rewrite H in E2.
    apply dict_get_None_keys in E2. rewrite E2 in E. by destruct E.
  - apply dict_mem_false. apply dict_mem_false in E.
    apply dict_get_None_keys. rewrite H. by apply dict_get_None_keys.
Qed.
End DictFacts.

(** ** The commit loop *)

Lemma commit_node_ok n s : (commit_node n s).2 = inr tt.
Proof.
  unfold commit_node. destruct (String.eqb _ _); [|done].
  by destruct (joint_name n), (joint_axis n).
Qed.

Lemma commit_nodes_cons n vs s :
  commit_nodes (n :: vs) s = commit_nodes vs (commit_node n s).1.
Proof.
  simpl. unfold bind. pose proof (commit_node_ok n s) as H.
  destruct (commit_node n s) as [s' [e|[]]]; simpl in *; [done|done].
Qed.

Lemma commit_nodes_ok vs s : (commit_nodes vs s).2 = inr tt.
Proof.
  revert s. induction vs as [|n vs IH]; intros s; [done|].
  rewrite commit_nodes_cons. apply IH.
Qed.

Lemma commit_node_transforms n s :
  node_filled n ->
  transforms (commit_node n s).1 =
    <[(child n, parent n) := child2parent n]> (transforms s).
Proof.
  intros Hf. unfold commit_node.
  destruct (String.eqb (joint_type n) "revolute") eqn:E; [|done].
  apply String.eqb_eq in E. destruct (Hf E) as [[nm ->] [ax ->]]. done.
Qed.

Lemma commit_node_frames n s :
  node_filled n ->
  frames (commit_node n s).1 = {[child n]} ∪ {[parent n]} ∪ frames s.
Proof.
  intros Hf. unfold commit_node.
  destruct (String.eqb (joint_type n) "revolute") eqn:E; [|done].
  apply String.eqb_eq in E. destruct (Hf E) as [[nm ->] [ax ->]]. done.
Qed.

Lemma commit_node_joints_fixed n s :
  joint_type n ≠ "revolute" -> _joints (commit_node n s).1 = _joints s.
Proof.
  intros Hf. unfold commit_node.
  apply String.eqb_neq in Hf. by rewrite Hf.
Qed.

Lemma commit_node_joints_revolute n s name axis :
  joint_type n = "revolute" -> joint_name n = Some name ->
  joint_axis n = Some axis ->
  _joints (commit_node n s).1 =
    <[name := (child n, parent n, child2parent n, axis)]> (_joints s).
Proof.
  intros Ht Hn Ha. unfold commit_node.
  apply String.eqb_eq in Ht. by rewrite Ht, Hn, Ha.
Qed.

Lemma commit_nodes_transforms_other vs s c p :
  (forall n, n ∈ vs -> node_filled n) ->
  (forall n, n ∈ vs -> (child n, parent n) ≠ (c, p)) ->
  transforms (commit_nodes vs s).1 !! (c, p) = transforms s !! (c, p).
Proof.
  revert s. induction vs as [|n vs IH]; intros s Hf Hne; [done|].
  rewrite commit_nodes_cons, IH.
  - rewrite commit_node_transforms by (apply Hf; left).
    apply lookup_insert_ne. apply Hne. left.
  - intros m Hm. apply Hf. by right.
  - intros m Hm. apply Hne. by right.
Qed.

Lemma commit_nodes_transforms_elem vs s n :
  (forall m, m ∈ vs -> node_filled m) ->
  NoDup (child <$> vs) -> n ∈ vs ->
  transforms (commit_nodes vs s).1 !! (child n, parent n)
    = Some (child2parent n).
Proof.
  revert s. induction vs as [|m vs IH]; intros s Hf Hnd Hin.
  - by apply elem_of_nil in Hin.
  - rewrite fmap_cons in Hnd. apply NoDup_cons in Hnd as [Hm Hnd].
    rewrite commit_nodes_cons.
    apply elem_of_cons in Hin as [->|Hin].
    + rewrite commit_nodes_transforms_other.
      * rewrite commit_node_transforms by (apply Hf; left).
        apply lookup_insert_eq.
      * intros k Hk. apply Hf. by right.
      * intros k Hk [= Hc _]. apply Hm. rewrite <- Hc.
        apply list_elem_of_fmap. by exists k.
    + apply IH; [|done|done]. intros k Hk. apply Hf. by right.
Qed.

Lemma commit_nodes_joints_other vs s name :
  (forall n, n ∈ vs -> joint_type n = "revolute" -> joint_name n ≠ Some name) ->
  _joints (commit_nodes vs s).1 !! name = _joints s !! name.
Proof.
  revert s. induction vs as [|n vs IH]; intros s Hne; [done|].
  rewrite commit_nodes_cons, IH by (intros m Hm; apply Hne; by right).
  unfold commit_node.
  destruct (String.eqb (joint_type n) "revolute") eqn:E; [|done].
  apply String.eqb_eq in E.
  destruct (joint_name n) as [nm|] eqn:En; [|done].
  destruct (joint_axis n) as [ax|]; [|done].
  cbn. apply lookup_insert_ne. intros ->.
  eapply Hne; [left|exact E|exact En].
Qed.

Lemma commit_nodes_joints_mono vs s name :
  is_Some (_joints s !! name) ->
  is_Some (_joints (commit_nodes vs s).1 !! name).
Proof.
  revert s. induction vs as [|n vs IH]; intros s Hs; [done|].
  rewrite commit_nodes_cons. apply IH.
  unfold commit_node.
  destruct (String.eqb (joint_type n) "revolute"); [|done].
  destruct (joint_name n) as [nm|]; [|done].
  destruct (joint_axis n) as [ax|]; [|done].
  cbn. destruct (decide (nm = name)) as [->|Hne].
  - rewrite lookup_insert_eq. by eexists.
  - by rewrite lookup_insert_ne.
Qed.

Lemma commit_nodes_joints_elem vs s n name :
  n ∈ vs -> node_filled n ->
  joint_type n = "revolute" -> joint_name n = Some name ->
  is_Some (_joints (commit_nodes vs s).1 !! name).
Proof.
  revert s. induction vs as [|m vs IH]; intros s Hin Hf Ht Hn.
  - by apply elem_of_nil in Hin.
  - rewrite commit_nodes_cons.
    apply elem_of_cons in Hin as [<-|Hin]; [|by apply IH].
    apply commit_nodes_joints_mono.
    destruct (Hf Ht) as [_ [ax Hax]].
    rewrite (commit_node_joints_revolute n s name ax) by done.
    rewrite lookup_insert_eq. by eexists.
Qed.

Lemma commit_nodes_frames vs s f :
  (forall n, n ∈ vs -> node_filled n) ->
  f ∈ frames (commit_nodes vs s).1 <->
  f ∈ frames s \/ exists n, n ∈ vs /\ (f = child n \/ f = parent n).
Proof.
  revert s. induction vs as [|n vs IH]; intros s Hf.
  - simpl. split; [by left|]. intros [H|(n & Hn & _)]; [done|].
    by apply elem_of_nil in Hn.
  - rewrite commit_nodes_cons, IH by (intros m Hm; apply Hf; by right).
    rewrite commit_node_frames by (apply Hf; left).
    rewrite !elem_of_union, !elem_of_singleton. split.
    + intros [[[->| ->]|H]|(m & Hm & Hfm)].
      * right. exists n. split; [left|by left].
      * right. exists n. split; [left|by right].
      * by left.
      * right. exists m. split; [by right|done].
    + intros [H|(m & Hm & Hfm)]; [by left; right|].
      apply elem_of_cons in Hm as [->|Hm].
      * left. left. done.
      * right. by exists m.
Qed.

Lemma commit_nodes_joints_provenance vs s name r :
  _joints (commit_nodes vs s).1 !! name = Some r ->
  _joints s !! name = Some r \/
  exists n ax, n ∈ vs /\ joint_type n = "revolute" /\
               joint_name n = Some name /\ joint_axis n = Some ax /\
               r = (child n, parent n, child2parent n, ax).
Proof.
  revert s. induction vs as [|n vs IH]; intros s H; [by left|].
  rewrite commit_nodes_cons in H.
  destruct (IH _ H) as [H1|(m & ax & Hm & Hrest)].
  2: { right. exists m, ax. split; [by right|done]. }
  unfold commit_node in H1.
  destruct (String.eqb (joint_type n) "revolute") eqn:E; [|by left].
  apply String.eqb_eq in E.
  destruct (joint_name n) as [nm|] eqn:En; [|by left].
  destruct (joint_axis n) as [ax|] eqn:Ea; [|by left].
  cbn in H1. destruct (decide (nm = name)) as [->|Hne].
  - rewrite lookup_insert_eq in H1. injection H1 as <-.
    right. exists n, ax. split; [left|done].
  - rewrite lookup_insert_ne in H1 by done. by left.
Qed.

Lemma NoDup_fmap_elem_inj {A B} (f : A -> B) (l : list A) x y :
  NoDup (f <$> l) -> x ∈ l -> y ∈ l -> f x = f y -> x = y.
Proof.
  induction l as [|a l IH]; intros Hnd Hx Hy Hf.
  - by apply elem_of_nil in Hx.
  - rewrite fmap_cons in Hnd. apply NoDup_cons in Hnd as [Ha Hnd].
    apply elem_of_cons in Hx as [->|Hx], Hy as [->|Hy]; try done.
    + exfalso. apply Ha. rewrite Hf. apply list_elem_of_fmap. by exists y.
    + exfalso. apply Ha. rewrite <- Hf. apply list_elem_of_fmap. by exists x.
    + by apply IH.
Qed.

(** ** Attribute access *)

Lemma getitem_attr e k v : getitem e k = inr v <-> attr e k = Some v.
Proof.
  unfold getitem, dict_getitem, attr.
  destruct (dict_get k (attrs_of e)); split; congruence.
Qed.

Lemma has_attr_attr e k : has_attr e k = true <-> is_Some (attr e k).
Proof. apply dict_mem_true. Qed.

Lemma has_attr_false e k : has_attr e k = false <-> attr e k = None.
Proof. apply dict_mem_false. Qed.

Lemma attr_has e k v : attr e k = Some v -> has_attr e k = true.
Proof. intros H. apply has_attr_attr. by eexists. Qed.

Lemma attr_getitem e k v : attr e k = Some v -> getitem e k = inr v.
Proof. apply getitem_attr. Qed.

Lemma getitem_None e k : attr e k = None -> getitem e k = inl (KeyError k).
Proof. unfold getitem, dict_getitem, attr. by intros ->. Qed.

(** ** The node table *)

Lemma node_init_filled c rn : node_filled (Node_init c rn).
Proof. intros H. discriminate H. Qed.

Lemma table_ok_nil : table_ok [].
Proof. split; [constructor|]. intros k n H. by apply elem_of_nil in H. Qed.

Lemma table_ok_set d k n :
  table_ok d -> child n = k -> node_filled n -> table_ok (dict_set k n d).
Proof.
  intros [Hnd Hall] Hc Hf. split; [by apply dict_set_keys_NoDup|].
  intros k' n' Hin.
  apply dict_elem_get in Hin; [|by apply dict_set_keys_NoDup].
  destruct (decide (k = k')) as [<-|Hne].
  - rewrite dict_get_set_eq in Hin. by injection Hin as <-.
  - rewrite dict_get_set_ne in Hin by done.
    apply Hall. by apply dict_get_Some_elem.
Qed.

Lemma table_ok_values_NoDup d : table_ok d -> NoDup (child <$> dict_values d).
Proof.
  intros [Hnd Hall]. unfold dict_values.
  assert (child <$> d.*2 = d.*1) as ->; [|done].
  clear Hnd. induction d as [|[k n] d IH]; [done|].
  rewrite !fmap_cons. simpl. f_equal.
  - apply (Hall k n). left.
  - apply IH. intros k' n' H. apply Hall. by right.
Qed.

Lemma table_ok_values_filled d n :
  table_ok d -> n ∈ dict_values d -> child n ∈ d.*1 /\ node_filled n /\ dict_get (child n) d = Some n.
Proof.
  intros [Hnd Hall] Hin. unfold dict_values in Hin.
  apply list_elem_of_fmap in Hin as [[k m] [-> Hin]]. simpl.
  destruct (Hall k m Hin) as [Hc Hf]. split; [|split; [done|]].
  - rewrite Hc. apply list_elem_of_fmap. by exists (k, m).
  - rewrite Hc. by apply dict_elem_get.
Qed.

Lemma dict_get_values {V} k (v : V) d : dict_get k d = Some v -> v ∈ dict_values d.
Proof.
  intros H. apply dict_get_Some_elem in H. unfold dict_values.
  apply list_elem_of_fmap. by exists (k, v).
Qed.

(** ** The link loop *)

Lemma parse_link_inr l rn n :
  _parse_link l rn = inr n <->
  exists c, attr l "name" = Some c /\ n = Node_init c rn.
Proof.
  unfold _parse_link. destruct (has_attr l "name") eqn:E; simpl.
  - apply has_attr_attr in E as [c Hc]. rewrite (attr_getitem _ _ _ Hc). simpl.
    split.
    + intros [= <-]. by exists c.
    + intros (c' & Hc' & ->). congruence.
  - apply has_attr_false in E. split; [done|]. intros (c & Hc & _). congruence.
Qed.

Lemma parse_link_inl l rn e :
  _parse_link l rn = inl e -> e = MissingLinkName /\ attr l "name" = None.
Proof.
  unfold _parse_link. destruct (has_attr l "name") eqn:E; simpl.
  - apply has_attr_attr in E as [c Hc]. by rewrite (attr_getitem _ _ _ Hc).
  - apply has_attr_false in E. by intros [= <-].
Qed.

Lemma load_links_cons rn l links nodes c :
  attr l "name" = Some c ->
  load_links rn (l :: links) nodes =
    load_links rn links (dict_set c (Node_init c rn) nodes).
Proof.
  intros Hc. simpl.
  assert (_parse_link l rn = inr (Node_init c rn)) as ->; [|done].
  apply parse_link_inr. by exists c.
Qed.

Lemma load_links_inv rn l links nodes nodes' :
  load_links rn (l :: links) nodes = inr nodes' ->
  exists c, attr l "name" = Some c /\
    load_links rn links (dict_set c (Node_init c rn) nodes) = inr nodes'.
Proof.
  simpl. destruct (_parse_link l rn) as [e|n] eqn:E; [done|].
  apply parse_link_inr in E as (c & Hc & ->). simpl. intros H. by exists c.
Qed.

Lemma load_links_declared rn links nodes nodes' c :
  load_links rn links nodes = inr nodes' ->
  dict_get c nodes = Some (Node_init c rn) \/
    (exists l, l ∈ links /\ attr l "name" = Some c) ->
  dict_get c nodes' = Some (Node_init c rn).
Proof.
  revert nodes. induction links as [|l links IH]; intros nodes Hload Hc.
  - injection Hload as <-. destruct Hc as [H|(l & Hl & _)]; [done|].
    by apply elem_of_nil in Hl.
  - apply load_links_inv in Hload as (c0 & Hc0 & Hload).
    apply (IH _ Hload).
    destruct (decide (c0 = c)) as [->|Hne].
    + left. apply dict_get_set_eq.
    + rewrite dict_get_set_ne by done.
      destruct Hc as [H|(l' & Hl' & Hn)]; [by left|].
      apply elem_of_cons in Hl' as [->|Hl']; [congruence|].
      right. by exists l'.
Qed.

Lemma load_links_undeclared rn links nodes nodes' k :
  load_links rn links nodes = inr nodes' ->
  (forall l, l ∈ links -> attr l "name" ≠ Some k) ->
  dict_get k nodes' = dict_get k nodes.
Proof.
  revert nodes. induction links as [|l links IH]; intros nodes Hload Hk.
  - by injection Hload as <-.
  - apply load_links_inv in Hload as (c0 & Hc0 & Hload).
    rewrite (IH _ Hload) by (intros l' Hl'; apply Hk; by right).
    apply dict_get_set_ne. intros ->. by apply (Hk l); [left|].
Qed.

Lemma load_links_table_ok rn links nodes nodes' :
  table_ok nodes -> load_links rn links nodes = inr nodes' -> table_ok nodes'.
Proof.
  revert nodes. induction links as [|l links IH]; intros nodes Hok Hload.
  - by injection Hload as <-.
  - apply load_links_inv in Hload as (c0 & Hc0 & Hload).
    apply (IH _ (table_ok_set _ c0 (Node_init c0 rn) Hok eq_refl
                   (node_init_filled _ _)) Hload).
Qed.

Lemma load_links_total rn links nodes :
  (forall l, l ∈ links -> is_Some (attr l "name")) ->
  exists nodes', load_links rn links nodes = inr nodes'.
Proof.
  revert nodes. induction links as [|l links IH]; intros nodes Hall.
  - by exists nodes.
  - destruct (Hall l) as [c Hc]; [left|].
    rewrite (load_links_cons _ _ _ _ _ Hc). apply IH.
    intros l' Hl'. apply Hall. by right.
Qed.

(** A link element without a name stops the link loop, wherever it
    stands. *)
Lemma load_links_missing_name rn links nodes l :
  l ∈ links -> attr l "name" = None ->
  load_links rn links nodes = inl MissingLinkName.
Proof.
  revert nodes. induction links as [|l0 links IH]; intros nodes Hin Hnone.
  - by apply elem_of_nil in Hin.
  - simpl. destruct (_parse_link l0 rn) as [e|n] eqn:E.
    + by apply parse_link_inl in E as [-> _].
    + apply parse_link_inr in E as (c & Hc & ->). cbn [ebind child Node_init].
      apply elem_of_cons in Hin as [->|Hin]; [congruence|]. by apply IH.
Qed.

(** The table that the link loop builds from the empty table holds
    exactly the declared links. *)
Lemma load_links_keys rn robot nodes' k :
  load_links rn (findAll "link" robot) [] = inr nodes' ->
  is_Some (dict_get k nodes') <-> declared robot k.
Proof.
  intros Hl. unfold declared. split.
  - intros [n Hk].
    destruct (decide (Exists (fun l => attr l "name" = Some k)
                        (findAll "link" robot))) as [Hex|Hnex].
    + by apply Exists_exists in Hex.
    + rewrite (load_links_undeclared _ _ _ _ k Hl) in Hk; [done|].
      intros l Hin Hname. apply Hnex. apply Exists_exists. by exists l.
  - intros Hex. exists (Node_init k rn).
    apply (load_links_declared _ _ _ _ _ Hl). by right.
Qed.

(** Every node of the table that the link loop builds from the empty
    table is a fresh one. *)
Lemma load_links_fresh rn links nodes nodes' :
  (forall k n, dict_get k nodes = Some n -> n = Node_init k rn) ->
  load_links rn links nodes = inr nodes' ->
  forall k n, dict_get k nodes' = Some n -> n = Node_init k rn.
Proof.
  revert nodes. induction links as [|l links IH]; intros nodes Hfr Hload.
  - by injection Hload as <-.
  - apply load_links_inv in Hload as (c0 & Hc0 & Hload).
    refine (IH _ _ Hload).
    intros k n. destruct (decide (c0 = k)) as [->|Hne].
    + rewrite dict_get_set_eq. by intros [= <-].
    + rewrite dict_get_set_ne by done. apply Hfr.
Qed.

(** ** The joint loop *)

Ltac unfold_parse_joint := unfold _parse_joint.
Ltac unfold_load_joint := unfold load_joint.
Ltac unfold_load_urdf := unfold load_urdf.

Lemma str_in_elem s l : str_in s l = true <-> s ∈ l.
Proof.
  unfold str_in. rewrite existsb_exists. split.
  - intros (x & Hx & E). apply String.eqb_eq in E. subst. by apply list_elem_of_In.
  - intros H. exists s. split; [by apply list_elem_of_In|apply String.eqb_refl].
Qed.

Lemma str_in_not_elem s l : str_in s l = false <-> s ∉ l.
Proof.
  rewrite <- str_in_elem. destruct (str_in s l); split; try done.
Qed.

Section LoaderFacts.
Variable fromstring : string -> list R.
Variable matrix_from_euler_xyz : list R -> option M3.

Local Abbreviation _parse_joint := (_parse_joint fromstring matrix_from_euler_xyz).
Local Abbreviation load_joint := (load_joint fromstring matrix_from_euler_xyz).
Local Abbreviation load_joints := (load_joints fromstring matrix_from_euler_xyz).
Local Abbreviation load_urdf := (load_urdf fromstring matrix_from_euler_xyz).
Local Abbreviation reaches := (reaches fromstring matrix_from_euler_xyz).

Lemma parse_joint_unsupported j node pn jn jt :
  attr j "name" = Some jn -> attr j "type" = Some jt ->
  jt ∈ ["planar"; "floating"; "continuous"; "prismatic"] ->
  _parse_joint j node pn = inl (UnsupportedJointType jt).
Proof.
  intros Hn Ht Hin. unfold_parse_joint.
  rewrite (attr_getitem _ _ _ Hn), (attr_getitem _ _ _ Ht).
  unfold ebind at 1 2. apply str_in_elem in Hin. by rewrite Hin.
Qed.

Lemma parse_joint_invalid j node pn jn jt :
  attr j "name" = Some jn -> attr j "type" = Some jt ->
  jt ∉ ["planar"; "floating"; "continuous"; "prismatic"] ->
  jt ∉ ["revolute"; "fixed"] ->
  _parse_joint j node pn = inl (InvalidJointType jt).
Proof.
  intros Hn Ht Hin1 Hin2. unfold_parse_joint.
  rewrite (attr_getitem _ _ _ Hn), (attr_getitem _ _ _ Ht).
  unfold ebind at 1 2. apply str_in_not_elem in Hin1, Hin2.
  by rewrite Hin1, Hin2.
Qed.

Lemma parse_joint_allowed j node pn jn jt e :
  attr j "name" = Some jn -> attr j "type" = Some jt ->
  jt ∈ ["revolute"; "fixed"] ->
  _parse_joint j node pn = inl e -> e = ValueError.
Proof.
  intros Hn Ht Hin. unfold_parse_joint.
  rewrite (attr_getitem _ _ _ Hn), (attr_getitem _ _ _ Ht).
  unfold ebind at 1 2.
  assert (str_in jt ["planar"; "floating"; "continuous"; "prismatic"] = false) as ->.
  { apply str_in_not_elem. set_unfold. intros H.
    destruct Hin as [->| [->|[]]], H as [H|[H|[H|[H|[]]]]]; discriminate H. }
  apply str_in_elem in Hin. rewrite Hin. cbn [negb].
  unfold ebind, numeric, transform_from, getitem, dict_getitem, has_attr, dict_mem.
  repeat case_match; congruence.
Qed.

Lemma parse_joint_inr j node pn node' :
  _parse_joint j node pn = inr node' ->
  exists jn jt c2p axis,
    attr j "name" = Some jn /\ attr j "type" = Some jt /\
    jt ∈ ["revolute"; "fixed"] /\
    node' = mkNode (child node) pn c2p (Some jn) (Some axis) jt.
Proof.
  unfold_parse_joint.
  destruct (getitem j "name") as [e|jn] eqn:Hn; [done|].
  destruct (getitem j "type") as [e|jt] eqn:Ht; [done|].
  unfold ebind at 1 2.
  apply getitem_attr in Hn, Ht.
  destruct (str_in jt ["planar"; _; _; _]); [done|].
  destruct (str_in jt ["revolute"; "fixed"]) eqn:E; [|done]. cbn [negb].
  apply str_in_elem in E.
  unfold ebind. repeat case_match; try done.
  all: intros [= <-]; eexists _, _, _, _; done.
Qed.

Lemma load_joint_unknown_parent nodes j jn par pn :
  attr j "name" = Some jn -> is_Some (attr j "type") ->
  find "parent" j = Some par -> attr par "link" = Some pn ->
  dict_get pn nodes = None ->
  load_joint nodes j = inl (UnknownParentLink pn jn).
Proof.
  intros Hn Ht Hp Hpl Hget. unfold_load_joint.
  rewrite (attr_has _ _ _ Hn), (attr_getitem _ _ _ Hn).
  apply has_attr_attr in Ht. rewrite Ht, Hp.
  rewrite (attr_has _ _ _ Hpl), (attr_getitem _ _ _ Hpl).
  apply dict_mem_false in Hget. cbn [negb ebind]. by rewrite Hget.
Qed.

Lemma load_joint_unknown_child nodes j jn par pn ch cn :
  attr j "name" = Some jn -> is_Some (attr j "type") ->
  find "parent" j = Some par -> attr par "link" = Some pn ->
  is_Some (dict_get pn nodes) ->
  find "child" j = Some ch -> attr ch "link" = Some cn ->
  dict_get cn nodes = None ->
  load_joint nodes j = inl (UnknownChildLink cn jn).
Proof.
  intros Hn Ht Hp Hpl Hpget Hc Hcl Hget. unfold_load_joint.
  rewrite (attr_has _ _ _ Hn), (attr_getitem _ _ _ Hn).
  apply has_attr_attr in Ht. rewrite Ht, Hp.
  rewrite (attr_has _ _ _ Hpl), (attr_getitem _ _ _ Hpl).
  apply dict_mem_true in Hpget. cbn [negb ebind]. rewrite Hpget, Hc.
  rewrite (attr_has _ _ _ Hcl), (attr_getitem _ _ _ Hcl).
  apply dict_mem_false in Hget. cbn [negb ebind]. by rewrite Hget.
Qed.

Lemma load_joint_validated nodes j jn par pn ch cn node :
  attr j "name" = Some jn -> is_Some (attr j "type") ->
  find "parent" j = Some par -> attr par "link" = Some pn ->
  is_Some (dict_get pn nodes) ->
  find "child" j = Some ch -> attr ch "link" = Some cn ->
  dict_get cn nodes = Some node ->
  load_joint nodes j =
    (let? node' := _parse_joint j node pn in inr (dict_set cn node' nodes)).
Proof.
  intros Hn Ht Hp Hpl Hpget Hc Hcl Hget. unfold_load_joint.
  rewrite (attr_has _ _ _ Hn), (attr_getitem _ _ _ Hn).
  apply has_attr_attr in Ht. rewrite Ht, Hp.
  rewrite (attr_has _ _ _ Hpl), (attr_getitem _ _ _ Hpl).
  apply dict_mem_true in Hpget. cbn [negb ebind]. rewrite Hpget, Hc.
  rewrite (attr_has _ _ _ Hcl), (attr_getitem _ _ _ Hcl).
  assert (dict_mem cn nodes = true) as Hm by (apply dict_mem_true; by eexists).
  cbn [negb ebind]. rewrite Hm. unfold dict_getitem. by rewrite Hget.
Qed.

Lemma load_joint_inr nodes j nodes' :
  load_joint nodes j = inr nodes' ->
  exists jn jt pn cn node c2p axis,
    attr j "name" = Some jn /\ attr j "type" = Some jt /\
    jt ∈ ["revolute"; "fixed"] /\
    joint_link "parent" j = Some pn /\ is_Some (dict_get pn nodes) /\
    joint_link "child" j = Some cn /\ dict_get cn nodes = Some node /\
    nodes' = dict_set cn (mkNode (child node) pn c2p (Some jn) (Some axis) jt)
               nodes.
Proof.
  unfold_load_joint; unfold joint_link.
  destruct (has_attr j "name") eqn:Hn; [|done].
  apply has_attr_attr in Hn as [jn Hn]. rewrite (attr_getitem _ _ _ Hn).
  cbn [negb ebind].
  destruct (has_attr j "type") eqn:Ht; [|done]. cbn [negb].
  destruct (find "parent" j) as [par|]; [|done].
  destruct (has_attr par "link") eqn:Hpl; [|done].
  apply has_attr_attr in Hpl as [pn Hpl]. rewrite (attr_getitem _ _ _ Hpl).
  cbn [negb ebind].
  destruct (dict_mem pn nodes) eqn:Hpm; [|done]. cbn [negb].
  destruct (find "child" j) as [ch|]; [|done].
  destruct (has_attr ch "link") eqn:Hcl; [|done].
  apply has_attr_attr in Hcl as [cn Hcl]. rewrite (attr_getitem _ _ _ Hcl).
  cbn [negb ebind].
  destruct (dict_mem cn nodes) eqn:Hcm; [|done]. cbn [negb].
  apply dict_mem_true in Hcm as [node Hnode].
  unfold dict_getitem. rewrite Hnode. cbn [ebind].
  destruct (_parse_joint j node pn) as [e|node'] eqn:Hpj; cbn [ebind];
    [done|].
  intros [= <-].
  apply parse_joint_inr in Hpj as (jn' & jt & c2p & axis & Hn' & Ht' & Hin & ->).
  assert (jn' = jn) as -> by congruence.
  exists jn, jt, pn, cn, node, c2p, axis.
  split_and!; try done. by apply dict_mem_true.
Qed.

Lemma load_joints_inv j js nodes nodes' :
  load_joints (j :: js) nodes = inr nodes' ->
  exists nodes1, load_joint nodes j = inr nodes1 /\
                 load_joints js nodes1 = inr nodes'.
Proof.
  simpl. destruct (load_joint nodes j) as [e|nodes1]; [done|].
  intros H. by exists nodes1.
Qed.

Lemma load_joints_app pre post nodes :
  load_joints (pre ++ post) nodes =
    (let? nodes1 := load_joints pre nodes in load_joints post nodes1).
Proof.
  revert nodes. induction pre as [|j pre IH]; intros nodes; [done|].
  simpl. destruct (load_joint nodes j) as [e|nodes1]; [done|]. apply IH.
Qed.

Lemma load_joints_first_error pre j post nodes nodes1 e :
  load_joints pre nodes = inr nodes1 -> load_joint nodes1 j = inl e ->
  load_joints (pre ++ j :: post) nodes = inl e.
Proof.
  intros Hpre Hj. rewrite load_joints_app, Hpre. simpl. by rewrite Hj.
Qed.

Lemma load_joint_keys nodes j nodes' :
  load_joint nodes j = inr nodes' -> nodes'.*1 = nodes.*1.
Proof.
  intros H. apply load_joint_inr in H
    as (jn & jt & pn & cn & node & c2p & axis & _ & _ & _ & _ & _ & _ & Hg & ->).
  apply dict_set_keys_same. by eexists.
Qed.

Lemma load_joints_keys js nodes nodes' :
  load_joints js nodes = inr nodes' -> nodes'.*1 = nodes.*1.
Proof.
  revert nodes. induction js as [|j js IH]; intros nodes H.
  - by injection H as <-.
  - apply load_joints_inv in H as (nodes1 & H1 & H2).
    rewrite (IH _ H2). by apply (load_joint_keys nodes j).
Qed.

Lemma load_joint_table_ok nodes j nodes' :
  table_ok nodes -> load_joint nodes j = inr nodes' -> table_ok nodes'.
Proof.
  intros Hok H. apply load_joint_inr in H
    as (jn & jt & pn & cn & node & c2p & axis & _ & _ & _ & _ & _ & _ & Hg & ->).
  apply table_ok_set; [done| |].
  - simpl. destruct Hok as [_ Hall]. apply (Hall cn node).
    by apply dict_get_Some_elem.
  - intros _. simpl. split; by eexists.
Qed.

Lemma load_joints_table_ok js nodes nodes' :
  table_ok nodes -> load_joints js nodes = inr nodes' -> table_ok nodes'.
Proof.
  revert nodes. induction js as [|j js IH]; intros nodes Hok H.
  - by injection H as <-.
  - apply load_joints_inv in H as (nodes1 & H1 & H2).
    apply (IH nodes1); [|done]. by apply (load_joint_table_ok nodes j).
Qed.

(** A link that no joint names as its child keeps its node. *)
Lemma load_joints_untouched js nodes nodes' k :
  load_joints js nodes = inr nodes' ->
  (forall j, j ∈ js -> joint_link "child" j ≠ Some k) ->
  dict_get k nodes' = dict_get k nodes.
Proof.
  revert nodes. induction js as [|j js IH]; intros nodes H Hk.
  - by injection H as <-.
  - apply load_joints_inv in H as (nodes1 & H1 & H2).
    rewrite (IH _ H2) by (intros j' Hj'; apply Hk; by right).
    apply load_joint_inr in H1
      as (jn & jt & pn & cn & node & c2p & axis & _ & _ & _ & _ & _ & Hc & Hg & ->).
    apply dict_get_set_ne. intros ->. by apply (Hk j); [left|].
Qed.

(** Where a node that is not fresh comes from. *)
Lemma load_joints_provenance js nodes nodes' k n :
  load_joints js nodes = inr nodes' ->
  dict_get k nodes' = Some n ->
  dict_get k nodes = Some n \/
  exists j, j ∈ js /\ joint_link "child" j = Some k /\
            attr j "name" = joint_name n /\
            attr j "type" = Some (joint_type n) /\
            joint_link "parent" j = Some (parent n) /\
            joint_type n ∈ ["revolute"; "fixed"].
Proof.
  revert nodes. induction js as [|j js IH]; intros nodes H Hn.
  - injection H as <-. by left.
  - apply load_joints_inv in H as (nodes1 & H1 & H2).
    destruct (IH _ H2 Hn) as [Hn1|(j' & Hj' & Hrest)].
    2: { right. exists j'. split; [by right|done]. }
    apply load_joint_inr in H1
      as (jn & jt & pn & cn & node & c2p & axis & Hjn & Hjt & Hin & Hp & _ & Hc & Hg & ->).
    destruct (decide (cn = k)) as [->|Hne].
    + rewrite dict_get_set_eq in Hn1. injection Hn1 as <-.
      right. exists j. split; [left|]. simpl. done.
    + rewrite dict_get_set_ne in Hn1 by done. by left.
Qed.

(** When no two joints share a child link, the node of a joint's child
    carries that joint's name and type. *)
Lemma load_joints_last_writer js nodes nodes' j jn jt c :
  load_joints js nodes = inr nodes' ->
  NoDup (joint_link "child" <$> js) ->
  j ∈ js -> attr j "name" = Some jn -> attr j "type" = Some jt ->
  joint_link "child" j = Some c ->
  exists n, dict_get c nodes' = Some n /\ joint_name n = Some jn /\
            joint_type n = jt /\ is_Some (joint_axis n) /\
            joint_link "parent" j = Some (parent n).
Proof.
  revert nodes. induction js as [|j0 js IH]; intros nodes H Hnd Hj Hn Ht Hc.
  - by apply elem_of_nil in Hj.
  - apply load_joints_inv in H as (nodes1 & H1 & H2).
    rewrite fmap_cons in Hnd. apply NoDup_cons in Hnd as [Hfirst Hnd].
    apply elem_of_cons in Hj as [->|Hj]; [|by apply (IH nodes1)].
    rewrite (load_joints_untouched _ _ _ c H2).
    + apply load_joint_inr in H1
        as (jn' & jt' & pn & cn & node & c2p & axis & Hjn & Hjt & Hin & Hp & _ & Hc' & Hg & ->).
      assert (cn = c) as -> by congruence.
      rewrite dict_get_set_eq. eexists. split; [done|]. simpl.
      split_and!; try congruence. by eexists.
    + intros j' Hj' Hc'. apply Hfirst. rewrite Hc, <- Hc'.
      apply list_elem_of_fmap. by exists j'.
Qed.

(** Every joint element of a loop that ran to its end was accepted, and
    the links it names were in the table from the start. *)
Lemma load_joints_accepted js nodes nodes' j :
  load_joints js nodes = inr nodes' -> j ∈ js ->
  exists jn jt pn cn,
    attr j "name" = Some jn /\ attr j "type" = Some jt /\
    jt ∈ ["revolute"; "fixed"] /\
    joint_link "parent" j = Some pn /\ joint_link "child" j = Some cn /\
    is_Some (dict_get pn nodes) /\ is_Some (dict_get cn nodes).
Proof.
  revert nodes. induction js as [|j0 js IH]; intros nodes H Hj.
  - by apply elem_of_nil in Hj.
  - apply load_joints_inv in H as (nodes1 & H1 & H2).
    apply elem_of_cons in Hj as [->|Hj].
    + apply load_joint_inr in H1
        as (jn & jt & pn & cn & node & c2p & axis
            & Hjn & Hjt & Hin & Hp & Hpk & Hc & Hck & _).
      exists jn, jt, pn, cn. by split_and!.
    + destruct (IH nodes1 H2 Hj)
        as (jn & jt & pn & cn & Hjn & Hjt & Hin & Hp & Hc & Hpk & Hck).
      exists jn, jt, pn, cn. split_and!; try done.
      * apply dict_mem_true.
        rewrite <- (dict_get_keys_eq pn _ _ (load_joint_keys _ _ _ H1)).
        by apply dict_mem_true.
      * apply dict_mem_true.
        rewrite <- (dict_get_keys_eq cn _ _ (load_joint_keys _ _ _ H1)).
        by apply dict_mem_true.
Qed.

(** ** The whole load *)

(** [load_urdf] once the robot element and its name are found. *)
Lemma load_urdf_robot urdf robot rn self :
  find "robot" urdf = Some robot -> attr robot "name" = Some rn ->
  load_urdf urdf self =
    match load_links rn (findAll "link" robot) [] with
    | inl e => (self, inl e)
    | inr nodes1 =>
        match load_joints (findAll "joint" robot) nodes1 with
        | inl e => (self, inl e)
        | inr nodes2 => commit_nodes (dict_values nodes2) self
        end
    end.
Proof.
  intros Hr Hn. unfold_load_urdf. rewrite Hr.
  rewrite (attr_has _ _ _ Hn), (attr_getitem _ _ _ Hn).
  unfold bind, lift; cbn [negb].
  destruct (load_links rn (findAll "link" robot) []) as [e|nodes1]; [done|].
  by destruct (load_joints (findAll "joint" robot) nodes1) as [e|nodes2].
Qed.

(** Over the store that accepts every matrix, a load that raises has
    committed nothing. *)
Lemma load_urdf_error_keeps_self urdf self self' e :
  load_urdf urdf self = (self', inl e) -> self' = self.
Proof.
  unfold_load_urdf.
  destruct (find "robot" urdf) as [robot|]; [|by intros [= <- _]].
  destruct (has_attr robot "name") eqn:Hn; [|by intros [= <- _]].
  apply has_attr_attr in Hn as [rn Hn]. rewrite (attr_getitem _ _ _ Hn).
  unfold bind, lift; cbn [negb].
  destruct (load_links rn (findAll "link" robot) []) as [e1|nodes1];
    [by intros [= <- _]|].
  destruct (load_joints (findAll "joint" robot) nodes1) as [e2|nodes2];
    [by intros [= <- _]|].
  intros H. pose proof (commit_nodes_ok (dict_values nodes2) self) as Hok.
  rewrite H in Hok. discriminate Hok.
Qed.

(** What a load that returns has done. *)
Lemma load_urdf_inr urdf self self' :
  load_urdf urdf self = (self', inr tt) ->
  exists robot rn nodes1 nodes2,
    find "robot" urdf = Some robot /\ attr robot "name" = Some rn /\
    load_links rn (findAll "link" robot) [] = inr nodes1 /\
    load_joints (findAll "joint" robot) nodes1 = inr nodes2 /\
    table_ok nodes2 /\
    self' = (commit_nodes (dict_values nodes2) self).1.
Proof.
  unfold_load_urdf.
  destruct (find "robot" urdf) as [robot|]; [|done].
  destruct (has_attr robot "name") eqn:Hn; [|done].
  apply has_attr_attr in Hn as [rn Hn]. rewrite (attr_getitem _ _ _ Hn).
  unfold bind, lift; cbn [negb].
  destruct (load_links rn (findAll "link" robot) []) as [e1|nodes1] eqn:Hl;
    [done|].
  destruct (load_joints (findAll "joint" robot) nodes1) as [e2|nodes2] eqn:Hj;
    [done|].
  intros H. exists robot, rn, nodes1, nodes2. split_and!; try done.
  - apply (load_joints_table_ok _ _ _ ltac:(eapply load_links_table_ok; [apply table_ok_nil|exact Hl]) Hj).
  - by rewrite H.
Qed.

(** The first joint element that is refused decides the outcome. *)
Lemma reaches_error urdf robot joint nodes e self :
  reaches urdf robot joint nodes -> load_joint nodes joint = inl e ->
  load_urdf urdf self = (self, inl e).
Proof.
  intros (rn & nodes1 & pre & post & Hr & Hn & Hl & Hj & Hpre) He.
  rewrite (load_urdf_robot _ _ _ _ Hr Hn), Hl, Hj.
  by rewrite (load_joints_first_error _ _ _ _ _ _ Hpre He).
Qed.

(** The node table at a joint holds exactly the declared links. *)
Lemma reaches_declared urdf robot joint nodes k :
  reaches urdf robot joint nodes ->
  is_Some (dict_get k nodes) <-> declared robot k.
Proof.
  intros (rn & nodes1 & pre & post & Hr & Hn & Hl & Hj & Hpre).
  rewrite <- dict_mem_true.
  rewrite (dict_get_keys_eq k _ _ (load_joints_keys _ _ _ Hpre)).
  rewrite dict_mem_true. apply (load_links_keys rn _ _ k Hl).
Qed.

(** A load that returns has seen only joints between declared links, of
    the types revolute and fixed. *)
Lemma load_urdf_inr_joints urdf robot self self' joint :
  load_urdf urdf self = (self', inr tt) -> find "robot" urdf = Some robot ->
  joint ∈ findAll "joint" robot ->
  exists jn jt pn cn,
    attr joint "name" = Some jn /\ attr joint "type" = Some jt /\
    jt ∈ ["revolute"; "fixed"] /\
    joint_link "parent" joint = Some pn /\ declared robot pn /\
    joint_link "child" joint = Some cn /\ declared robot cn.
Proof.
  intros Hload Hrobot Hin.
  apply load_urdf_inr in Hload
    as (robot' & rn & nodes1 & nodes2 & Hr & Hn & Hl & Hj & _ & _).
  assert (robot' = robot) as -> by congruence.
  destruct (load_joints_accepted _ _ _ joint Hj Hin)
    as (jn & jt & pn & cn & Hjn & Hjt & Hal & Hp & Hc & Hpk & Hck).
  exists jn, jt, pn, cn. split_and!; try done.
  - by apply (load_links_keys rn _ _ pn Hl).
  - by apply (load_links_keys rn _ _ cn Hl).
Qed.

Lemma joint_link_inv tag joint k :
  joint_link tag joint = Some k <->
  exists e, find tag joint = Some e /\ attr e "link" = Some k.
Proof.
  unfold joint_link. destruct (find tag joint) as [e|]; split.
  - intros H. by exists e.
  - by intros (e' & [= <-] & H).
  - done.
  - by intros (e' & [=] & _).
Qed.

(** C4: at a joint element that the loader reaches, with a name, a type
    and a parent element that names the link [pn]: if no link element of
    the robot declares [pn], wherever it stands relative to the joint,
    the load fails with UnknownParentLink; if one does, the parent is
    resolved, and then the same holds of the link [cn] that the child
    element names, with UnknownChildLink, after which the loader goes on
    to [_parse_joint].  And no load returns unless every link that a
    joint's parent or child element names is declared. *)
Theorem unknown_link_any_order
    (urdf robot joint parent : PageElement) (nodes : dict Node)
    (self : UrdfTransformManager) (jn pn : string)
    (Hreach : reaches urdf robot joint nodes)
    (Hname : attr joint "name" = Some jn)
    (Htype : is_Some (attr joint "type"))
    (Hparent : find "parent" joint = Some parent)
    (Hplink : attr parent "link" = Some pn) :
  (~ declared robot pn ->
     load_urdf urdf self = (self, inl (UnknownParentLink pn jn))) /\
  (declared robot pn ->
     dict_mem pn nodes = true /\
     forall (child : PageElement) (cn : string),
       find "child" joint = Some child -> attr child "link" = Some cn ->
       (~ declared robot cn ->
          load_urdf urdf self = (self, inl (UnknownChildLink cn jn))) /\
       (declared robot cn ->
          exists node, dict_get cn nodes = Some node /\
            load_joint nodes joint =
              (let? node' := _parse_joint joint node pn in
               inr (dict_set cn node' nodes)))) /\
  (forall (s s' : UrdfTransformManager) (j : PageElement) (tag k : string),
      load_urdf urdf s = (s', inr tt) ->
      j ∈ findAll "joint" robot -> tag ∈ ["parent"; "child"] ->
      joint_link tag j = Some k -> declared robot k).
Proof.
  split_and!.
  3: { intros s s' j tag k Hload Hj Htag Hk.
       destruct Hreach as (rn & _ & _ & _ & Hrobot & _).
       destruct (load_urdf_inr_joints urdf robot s s' j Hload Hrobot Hj)
         as (_ & _ & pn' & cn' & _ & _ & _ & Hp & Hpd & Hc & Hcd).
       apply elem_of_cons in Htag as [->|Htag]; [congruence|].
       apply elem_of_cons in Htag as [->|Htag]; [congruence|].
       by apply elem_of_nil in Htag. }
  - intros Hnd. apply (reaches_error _ _ _ _ _ _ Hreach).
    apply (load_joint_unknown_parent _ _ _ parent); try done.
    destruct (dict_get pn nodes) eqn:E; [|done].
    exfalso. apply Hnd. apply (reaches_declared _ _ _ _ _ Hreach).
    by eexists.
  - intros Hd.
    assert (Hp : is_Some (dict_get pn nodes))
      by by apply (reaches_declared _ _ _ _ _ Hreach).
    split; [by apply dict_mem_true|].
    intros child cn Hchild Hclink. split.
    + intros Hnd. apply (reaches_error _ _ _ _ _ _ Hreach).
      apply (load_joint_unknown_child _ _ _ parent pn child); try done.
      destruct (dict_get cn nodes) eqn:E; [|done].
      exfalso. apply Hnd. apply (reaches_declared _ _ _ _ _ Hreach).
      by eexists.
    + intros Hcd.
      apply (reaches_declared _ _ _ _ _ Hreach) in Hcd as [node Hnode].
      exists node. split; [done|].
      by apply (load_joint_validated _ _ jn parent pn child).
Qed.

(** C5: at a joint element that the loader reaches and whose name,
    type, parent link and child link are accepted: a type among planar,
    floating, continuous, prismatic fails the load with
    UnsupportedJointType; any other type that is not revolute or fixed
    fails it with InvalidJointType; and with the type revolute or fixed
    the joint raises no [UrdfException] at all (the one exception left is
    the numeric library's).  And no load returns unless the type of every
    joint is revolute or fixed. *)
Theorem joint_type_checked
    (urdf robot joint : PageElement) (nodes : dict Node)
    (self : UrdfTransformManager) (jn jt pn cn : string)
    (Hreach : reaches urdf robot joint nodes)
    (Hname : attr joint "name" = Some jn)
    (Htype : attr joint "type" = Some jt)
    (Hparent : joint_link "parent" joint = Some pn)
    (Hpk : is_Some (dict_get pn nodes))
    (Hchild : joint_link "child" joint = Some cn)
    (Hck : is_Some (dict_get cn nodes)) :
  (jt ∈ ["planar"; "floating"; "continuous"; "prismatic"] ->
     load_urdf urdf self = (self, inl (UnsupportedJointType jt))) /\
  (jt ∉ ["planar"; "floating"; "continuous"; "prismatic"] ->
   jt ∉ ["revolute"; "fixed"] ->
     load_urdf urdf self = (self, inl (InvalidJointType jt))) /\
  (jt ∈ ["revolute"; "fixed"] ->
     forall e, load_joint nodes joint = inl e -> e = ValueError) /\
  (forall (s s' : UrdfTransformManager) (j : PageElement) (t : string),
      load_urdf urdf s = (s', inr tt) ->
      j ∈ findAll "joint" robot -> attr j "type" = Some t ->
      t ∈ ["revolute"; "fixed"]).
Proof.
  assert (Hall : forall (s s' : UrdfTransformManager) (j : PageElement)
                        (t : string),
             load_urdf urdf s = (s', inr tt) ->
             j ∈ findAll "joint" robot -> attr j "type" = Some t ->
             t ∈ ["revolute"; "fixed"]).
  { intros s s' j t Hload Hj Ht.
    destruct Hreach as (rn & _ & _ & _ & Hrobot & _).
    destruct (load_urdf_inr_joints urdf robot s s' j Hload Hrobot Hj)
      as (_ & jt' & _ & _ & _ & Hjt' & Hal & _).
    congruence. }
  apply joint_link_inv in Hparent as (par & Hpar & Hpl).
  apply joint_link_inv in Hchild as (ch & Hch & Hcl).
  destruct Hck as [node Hnode].
  assert (Hstep : load_joint nodes joint =
            (let? node' := _parse_joint joint node pn in
             inr (dict_set cn node' nodes))).
  { by apply (load_joint_validated _ _ jn par pn ch). }
  split_and!.
  - intros Hin. apply (reaches_error _ _ _ _ _ _ Hreach).
    by rewrite Hstep, (parse_joint_unsupported _ _ _ jn jt).
  - intros Hn1 Hn2. apply (reaches_error _ _ _ _ _ _ Hreach).
    by rewrite Hstep, (parse_joint_invalid _ _ _ jn jt).
  - intros Hin e. rewrite Hstep.
    destruct (_parse_joint joint node pn) as [e'|node'] eqn:E; [|done].
    intros [= <-].
    exact (parse_joint_allowed joint node pn jn jt e' Hname Htype Hin E).
  - exact Hall.
Qed.

(** C10: after a load that returns, every declared link [c] that no
    joint element names as its child has the edge (c, robot name) with
    the identity transform, both frames exist, and the load has added no
    joint record whose child frame is [c]: the edge is static. *)
Theorem root_links_attach_to_robot
    (urdf robot link : PageElement) (self self' : UrdfTransformManager)
    (rn c : string)
    (Hload : load_urdf urdf self = (self', inr tt))
    (Hrobot : find "robot" urdf = Some robot)
    (Hrn : attr robot "name" = Some rn)
    (Hlink : link ∈ findAll "link" robot)
    (Hc : attr link "name" = Some c)
    (Hroot : forall joint, joint ∈ findAll "joint" robot ->
               joint_link "child" joint ≠ Some c) :
  transforms self' !! (c, rn) = Some eye4 /\
  c ∈ frames self' /\ rn ∈ frames self' /\
  (forall name p T axis,
      _joints self' !! name = Some (c, p, T, axis) ->
      _joints self !! name = Some (c, p, T, axis)).
Proof.
  apply load_urdf_inr in Hload
    as (robot' & rn' & nodes1 & nodes2 & Hr & Hn & Hl & Hj & Hok & ->).
  assert (robot' = robot) as -> by congruence.
  assert (rn' = rn) as -> by congruence.
  assert (Hnode : dict_get c nodes2 = Some (Node_init c rn)).
  { rewrite (load_joints_untouched _ _ _ c Hj Hroot).
    apply (load_links_declared _ _ _ _ _ Hl). right. by exists link. }
  pose proof (dict_get_values _ _ _ Hnode) as Hin.
  assert (Hfilled : forall n, n ∈ dict_values nodes2 -> node_filled n).
  { intros n Hn'. by apply (table_ok_values_filled nodes2 n Hok). }
  split_and!.
  - apply (commit_nodes_transforms_elem _ self (Node_init c rn) Hfilled
             (table_ok_values_NoDup _ Hok) Hin).
  - apply commit_nodes_frames; [done|]. right.
    exists (Node_init c rn). split; [done|by left].
  - apply commit_nodes_frames; [done|]. right.
    exists (Node_init c rn). split; [done|by right].
  - intros name p T axis Hrec.
    apply commit_nodes_joints_provenance in Hrec
      as [H|(n & ax & Hn' & Ht & _ & _ & Heq)]; [done|].
    exfalso. injection Heq as Hc' _ _ _.
    destruct (table_ok_values_filled nodes2 n Hok Hn') as (_ & _ & Hget).
    rewrite <- Hc', Hnode in Hget. injection Hget as <-. discriminate Ht.
Qed.

(** C6 (amended): after a load that returns, of a document in which no
    two joint elements share a child link or a name, the registry holds a
    record under the name of a joint of the document, a name that had no
    record before the load, if and only if that joint's type is revolute;
    every joint, fixed or revolute, has its (child, parent) edge in the
    store.  [set_joint] on a name without a record, in particular on
    the name of a fixed joint, raises the KeyError
    "Joint '<name>' is not known" and leaves the manager as it is. *)
Theorem registry_iff_revolute
    (urdf robot : PageElement) (self self' : UrdfTransformManager)
    (Hload : load_urdf urdf self = (self', inr tt))
    (Hrobot : find "robot" urdf = Some robot)
    (Hchildren : NoDup (joint_link "child" <$> findAll "joint" robot))
    (Hnames : NoDup ((fun j => attr j "name") <$> findAll "joint" robot)) :
  (forall joint jn jt,
      joint ∈ findAll "joint" robot ->
      attr joint "name" = Some jn -> attr joint "type" = Some jt ->
      _joints self !! jn = None ->
      (is_Some (_joints self' !! jn) <-> jt = "revolute") /\
      exists cn pn,
        joint_link "child" joint = Some cn /\
        joint_link "parent" joint = Some pn /\
        is_Some (transforms self' !! (cn, pn))) /\
  (forall name angle,
      _joints self' !! name = None ->
      set_joint name angle self' =
        (self', inl (KeyError ("Joint '" ++ name ++ "' is not known")))) /\
  (forall joint jn angle,
      joint ∈ findAll "joint" robot ->
      attr joint "name" = Some jn -> attr joint "type" = Some "fixed" ->
      _joints self !! jn = None ->
      set_joint jn angle self' =
        (self', inl (KeyError ("Joint '" ++ jn ++ "' is not known")))).
Proof.
  assert (Hunknown : forall name angle,
             _joints self' !! name = None ->
             set_joint name angle self' =
               (self', inl (KeyError ("Joint '" ++ name ++ "' is not known")))).
  { intros name angle Hnone. unfold set_joint. by rewrite Hnone. }
  assert (Hjoints : forall joint jn jt,
             joint ∈ findAll "joint" robot ->
             attr joint "name" = Some jn -> attr joint "type" = Some jt ->
             _joints self !! jn = None ->
             (is_Some (_joints self' !! jn) <-> jt = "revolute") /\
             exists cn pn,
               joint_link "child" joint = Some cn /\
               joint_link "parent" joint = Some pn /\
               is_Some (transforms self' !! (cn, pn))).
  2: { split_and!; [exact Hjoints|exact Hunknown|].
       intros joint jn angle Hin Hjn Hjt Hfresh. apply Hunknown.
       destruct (Hjoints joint jn "fixed" Hin Hjn Hjt Hfresh) as [Hiff _].
       destruct (_joints self' !! jn) as [r|] eqn:E; [|done].
       assert (Habs : "fixed" = "revolute") by (apply Hiff; by eexists).
       discriminate Habs. }
  apply load_urdf_inr in Hload
    as (robot' & rn & nodes1 & nodes2 & Hr & Hn & Hl & Hj & Hok & ->).
  assert (robot' = robot) as -> by congruence.
  intros joint jn jt Hin Hjn Hjt Hfresh.
  assert (Hfilled : forall n, n ∈ dict_values nodes2 -> node_filled n).
  { intros n Hn'. by apply (table_ok_values_filled nodes2 n Hok). }
  destruct (load_joints_accepted _ _ _ joint Hj Hin)
    as (jn' & jt' & pn & cn & Hjn' & Hjt' & Hallowed & Hp & Hc & _ & _).
  destruct (load_joints_last_writer _ _ _ joint jn jt cn Hj Hchildren
              Hin Hjn Hjt Hc) as (n & Hget & Hnn & Hnt & Hax & Hnp).
  pose proof (dict_get_values _ _ _ Hget) as Hnin.
  destruct (table_ok_values_filled nodes2 n Hok Hnin) as (_ & _ & Hget').
  assert (Hcn : child n = cn).
  { destruct Hok as [_ Hall]. apply (Hall cn n). by apply dict_get_Some_elem. }
  split.
  - split.
    + intros [r Hr'].
      apply commit_nodes_joints_provenance in Hr'
        as [H|(m & ax & Hm & Ht & Hmn & _ & _)]; [congruence|].
      destruct (table_ok_values_filled nodes2 m Hok Hm) as (_ & _ & Hgm).
      destruct (load_joints_provenance _ _ _ _ _ Hj Hgm)
        as [Hfreshnode|(j' & Hj' & _ & Hj'n & Hj't & _)].
      * assert (Hinit : m = Node_init (child m) rn).
        { apply (load_links_fresh rn (findAll "link" robot) [] nodes1);
            done. }
        rewrite Hinit in Ht. discriminate Ht.
      * assert (j' = joint) as ->.
        { apply (NoDup_fmap_elem_inj (fun j => attr j "name")
                   (findAll "joint" robot)); try done. congruence. }
        congruence.
    + intros ->.
      apply (commit_nodes_joints_elem _ _ n jn Hnin (Hfilled n Hnin) Hnt Hnn).
  - exists cn, pn. split_and!; try done.
    assert (parent n = pn) as Hpn by congruence.
    rewrite <- Hcn, <- Hpn.
    rewrite (commit_nodes_transforms_elem _ self n Hfilled
               (table_ok_values_NoDup _ Hok) Hnin). by eexists.
Qed.

Ltac parse_joint_start jt Hname Htype Hallowed :=
  unfold_parse_joint;
  rewrite (attr_getitem _ _ _ Hname), (attr_getitem _ _ _ Htype);
  unfold ebind at 1 2;
  let H := fresh in
  assert (H : str_in jt ["planar"; "floating"; "continuous"; "prismatic"]
              = false);
  [ apply str_in_not_elem; set_unfold; intros H;
    destruct Hallowed as [->| [->|[]]], H as [H|[H|[H|[H|[]]]]];
    discriminate H
  | rewrite H; clear H;
    apply str_in_elem in Hallowed; rewrite Hallowed; cbn [negb] ].

Ltac axis_cases jt joint :=
  destruct (String.eqb jt "revolute");
  [ destruct (find "axis" joint) as [?a|];
    [ let Ha := fresh in
      destruct (has_attr a "xyz") eqn:Ha;
      [ let t := fresh in let Ht := fresh in
        apply has_attr_attr in Ha as [t Ht];
        rewrite (attr_getitem _ _ _ Ht) | ] | ] | ];
  cbn [ebind].

(** C3: for a joint element with a name and the type revolute or fixed,
    [_parse_joint] returns a node whose [child2parent] has as rotation
    block the transpose of the Euler matrix of the rpy attribute when the
    origin element has one, and the identity when it has none; as
    translation the parsed xyz attribute, and zero when it is absent; and
    the identity transform when there is no origin element. *)
Theorem origin_rotation_transposed
    (joint : PageElement) (node : Node) (pn jn jt : string)
    (Hname : attr joint "name" = Some jn)
    (Htype : attr joint "type" = Some jt)
    (Hallowed : jt ∈ ["revolute"; "fixed"]) :
  (forall origin rpy m,
      find "origin" joint = Some origin ->
      attr origin "rpy" = Some rpy ->
      matrix_from_euler_xyz (fromstring rpy) = Some m ->
      (attr origin "xyz" = None ->
         exists node', _parse_joint joint node pn = inr node' /\
           rotation_block (child2parent node') = transpose3 m /\
           translation_of (child2parent node') = mkV3 0 0 0) /\
      (forall xyz x y z,
         attr origin "xyz" = Some xyz -> fromstring xyz = [x; y; z] ->
         exists node', _parse_joint joint node pn = inr node' /\
           rotation_block (child2parent node') = transpose3 m /\
           translation_of (child2parent node') = mkV3 x y z)) /\
  (forall origin,
      find "origin" joint = Some origin ->
      attr origin "rpy" = None ->
      (attr origin "xyz" = None ->
         exists node', _parse_joint joint node pn = inr node' /\
           child2parent node' = eye4) /\
      (forall xyz x y z,
         attr origin "xyz" = Some xyz -> fromstring xyz = [x; y; z] ->
         exists node', _parse_joint joint node pn = inr node' /\
           rotation_block (child2parent node') = eye3 /\
           translation_of (child2parent node') = mkV3 x y z)) /\
  (find "origin" joint = None ->
     exists node', _parse_joint joint node pn = inr node' /\
       child2parent node' = eye4).
Proof.
  split_and!.
  - intros origin rpy m Ho Hrpy Hm. split.
    + intros Hxyz. parse_joint_start jt Hname Htype Hallowed.
      rewrite Ho. apply has_attr_false in Hxyz. rewrite Hxyz.
      rewrite (attr_has _ _ _ Hrpy), (attr_getitem _ _ _ Hrpy).
      cbn [ebind]. rewrite Hm. cbn [numeric ebind transform_from zeros3].
      axis_cases jt joint.
      all: eexists; (split; [reflexivity|]); cbn [child2parent].
      all: by rewrite rotation_block_homogeneous, translation_of_homogeneous.
    + intros xyz x y z Hxyz Hfs. parse_joint_start jt Hname Htype Hallowed.
      rewrite Ho. rewrite (attr_has _ _ _ Hxyz), (attr_getitem _ _ _ Hxyz).
      rewrite (attr_has _ _ _ Hrpy), (attr_getitem _ _ _ Hrpy).
      cbn [ebind]. rewrite Hm, Hfs. cbn [numeric ebind transform_from].
      axis_cases jt joint.
      all: eexists; (split; [reflexivity|]); cbn [child2parent].
      all: by rewrite rotation_block_homogeneous, translation_of_homogeneous.
  - intros origin Ho Hrpy. split.
    + intros Hxyz. parse_joint_start jt Hname Htype Hallowed.
      rewrite Ho. apply has_attr_false in Hxyz, Hrpy. rewrite Hxyz, Hrpy.
      cbn [ebind transform_from zeros3].
      axis_cases jt joint.
      all: eexists; split; reflexivity.
    + intros xyz x y z Hxyz Hfs. parse_joint_start jt Hname Htype Hallowed.
      rewrite Ho. rewrite (attr_has _ _ _ Hxyz), (attr_getitem _ _ _ Hxyz).
      apply has_attr_false in Hrpy. rewrite Hrpy.
      cbn [ebind]. rewrite Hfs. cbn [ebind transform_from].
      axis_cases jt joint.
      all: eexists; (split; [reflexivity|]); cbn [child2parent].
      all: by rewrite rotation_block_homogeneous, translation_of_homogeneous.
  - intros Ho. parse_joint_start jt Hname Htype Hallowed.
    rewrite Ho. cbn [ebind transform_from zeros3].
    axis_cases jt joint.
    all: eexists; split; reflexivity.
Qed.
End LoaderFacts.

(** ** The name of the robot *)

Section RobotName.
Variables r1 r2 : string.

Lemma same_but_root_child n1 n2 :
  same_but_root r1 r2 n1 n2 -> child n1 = child n2.
Proof. by intros [->|(c & -> & ->)]. Qed.

Lemma tables_agree_get k d1 d2 :
  tables_agree r1 r2 d1 d2 ->
  match dict_get k d1, dict_get k d2 with
  | Some n1, Some n2 => same_but_root r1 r2 n1 n2
  | None, None => True
  | _, _ => False
  end.
Proof.
  induction 1 as [|[k1 n1] [k2 n2] d1 d2 [Hk Hn] _ IH]; simpl; [done|].
  simpl in Hk. subst k2. by destruct (String.eqb k k1).
Qed.

Lemma tables_agree_mem k d1 d2 :
  tables_agree r1 r2 d1 d2 -> dict_mem k d1 = dict_mem k d2.
Proof.
  intros H. pose proof (tables_agree_get k _ _ H) as Hg. unfold dict_mem.
  by destruct (dict_get k d1), (dict_get k d2).
Qed.

Lemma tables_agree_set k n1 n2 d1 d2 :
  tables_agree r1 r2 d1 d2 -> same_but_root r1 r2 n1 n2 ->
  tables_agree r1 r2 (dict_set k n1 d1) (dict_set k n2 d2).
Proof.
  unfold tables_agree. intros H Hn.
  induction H as [|[k1 m1] [k2 m2] d1 d2 [Hk Hm] Hrest IH]; simpl.
  - constructor; [done|constructor].
  - simpl in Hk. subst k2. destruct (String.eqb k k1).
    + by constructor.
    + by constructor.
Qed.

Lemma load_links_agree links d1 d2 :
  tables_agree r1 r2 d1 d2 ->
  outcomes_agree (tables_agree r1 r2)
    (load_links r1 links d1) (load_links r2 links d2).
Proof.
  revert d1 d2. induction links as [|l links IH]; intros d1 d2 H; [done|].
  simpl. unfold _parse_link.
  destruct (has_attr l "name"); [|done]. cbn [negb].
  destruct (getitem l "name") as [e|c]; [done|]. cbn [ebind].
  apply IH. apply tables_agree_set; [done|]. right. by exists c.
Qed.

Variable fromstring : string -> list R.
Variable matrix_from_euler_xyz : list R -> option M3.

Local Abbreviation _parse_joint := (_parse_joint fromstring matrix_from_euler_xyz).
Local Abbreviation load_joint := (load_joint fromstring matrix_from_euler_xyz).
Local Abbreviation load_joints := (load_joints fromstring matrix_from_euler_xyz).
Local Abbreviation load_urdf := (load_urdf fromstring matrix_from_euler_xyz).

Lemma parse_joint_child j n1 n2 pn :
  child n1 = child n2 -> _parse_joint j n1 pn = _parse_joint j n2 pn.
Proof. intros H. unfold_parse_joint. by rewrite H. Qed.

Lemma load_joint_agree j d1 d2 :
  tables_agree r1 r2 d1 d2 ->
  outcomes_agree (tables_agree r1 r2) (load_joint d1 j) (load_joint d2 j).
Proof.
  intros H. unfold_load_joint.
  destruct (has_attr j "name"); [|done]. cbn [negb].
  destruct (getitem j "name") as [e|jn]; [done|]. cbn [ebind].
  destruct (has_attr j "type"); [|done]. cbn [negb].
  destruct (find "parent" j) as [par|]; [|done].
  destruct (has_attr par "link"); [|done]. cbn [negb].
  destruct (getitem par "link") as [e|pn]; [done|]. cbn [ebind].
  rewrite <- (tables_agree_mem pn _ _ H).
  destruct (dict_mem pn d1); [|done]. cbn [negb].
  destruct (find "child" j) as [ch|]; [|done].
  destruct (has_attr ch "link"); [|done]. cbn [negb].
  destruct (getitem ch "link") as [e|cn]; [done|]. cbn [ebind].
  rewrite <- (tables_agree_mem cn _ _ H).
  destruct (dict_mem cn d1); [|done]. cbn [negb].
  pose proof (tables_agree_get cn _ _ H) as Hg. unfold dict_getitem.
  destruct (dict_get cn d1) as [n1|], (dict_get cn d2) as [n2|]; try done.
  cbn [ebind].
  rewrite (parse_joint_child j n1 n2 pn (same_but_root_child _ _ Hg)).
  destruct (_parse_joint j n2 pn) as [e|node']; [done|]. cbn [ebind].
  apply tables_agree_set; [done|]. by left.
Qed.

Lemma load_joints_agree js d1 d2 :
  tables_agree r1 r2 d1 d2 ->
  outcomes_agree (tables_agree r1 r2) (load_joints js d1) (load_joints js d2).
Proof.
  revert d1 d2. induction js as [|j js IH]; intros d1 d2 H; [done|].
  simpl. pose proof (load_joint_agree j _ _ H) as Hj.
  destruct (load_joint d1 j) as [e1|t1], (load_joint d2 j) as [e2|t2];
    try done. cbn [ebind]. by apply IH.
Qed.

Lemma commit_node_agree n1 n2 s1 s2 :
  same_but_root r1 r2 n1 n2 -> agree r1 r2 s1 s2 ->
  agree r1 r2 (commit_node n1 s1).1 (commit_node n2 s2).1.
Proof.
  intros [->|(c & -> & ->)] (Hj & Ht & Hf).
  - unfold commit_node.
    destruct (String.eqb (joint_type n2) "revolute").
    + destruct (joint_name n2) as [nm|]; [|done].
      destruct (joint_axis n2) as [ax|]; [|done].
      split_and!; cbn.
      * by rewrite Hj.
      * intros c p Hp1 Hp2.
        destruct (decide ((child n2, parent n2) = (c, p))) as [->|Hne].
        -- by rewrite !lookup_insert_eq.
        -- rewrite !lookup_insert_ne by done. by apply Ht.
      * intros f Hf1 Hf2. rewrite !elem_of_union, (Hf f Hf1 Hf2). tauto.
    + split_and!; cbn.
      * done.
      * intros c p Hp1 Hp2.
        destruct (decide ((child n2, parent n2) = (c, p))) as [->|Hne].
        -- by rewrite !lookup_insert_eq.
        -- rewrite !lookup_insert_ne by done. by apply Ht.
      * intros f Hf1 Hf2. rewrite !elem_of_union, (Hf f Hf1 Hf2). tauto.
  - split_and!; cbn.
    + done.
    + intros c' p Hp1 Hp2.
      rewrite !lookup_insert_ne by congruence. by apply Ht.
    + intros f Hf1 Hf2.
      rewrite !elem_of_union, !elem_of_singleton, (Hf f Hf1 Hf2). tauto.
Qed.

Lemma commit_nodes_agree vs1 vs2 s1 s2 :
  Forall2 (same_but_root r1 r2) vs1 vs2 -> agree r1 r2 s1 s2 ->
  agree r1 r2 (commit_nodes vs1 s1).1 (commit_nodes vs2 s2).1.
Proof.
  intros H. revert s1 s2.
  induction H as [|n1 n2 vs1 vs2 Hn _ IH]; intros s1 s2 Hs; [done|].
  rewrite !commit_nodes_cons. apply IH. by apply commit_node_agree.
Qed.

Lemma tables_agree_values d1 d2 :
  tables_agree r1 r2 d1 d2 ->
  Forall2 (same_but_root r1 r2) (dict_values d1) (dict_values d2).
Proof.
  induction 1 as [|[k1 n1] [k2 n2] d1 d2 [_ Hn] _ IH]; [constructor|].
  by constructor.
Qed.

Lemma agree_refl s : agree r1 r2 s s.
Proof. by split_and!. Qed.

End RobotName.

(** ** The edges that the robot name decides *)

(** The edge (c, p) after the commit loop, read off the node table. *)
Lemma commit_nodes_lookup d s c p :
  table_ok d ->
  transforms (commit_nodes (dict_values d) s).1 !! (c, p) =
    match dict_get c d with
    | Some n =>
        if decide (parent n = p) then Some (child2parent n)
        else transforms s !! (c, p)
    | None => transforms s !! (c, p)
    end.
Proof.
  intros Hok.
  assert (Hfilled : forall n, n ∈ dict_values d -> node_filled n).
  { intros n Hn. by apply (table_ok_values_filled d n Hok). }
  destruct (dict_get c d) as [n|] eqn:Hget.
  - assert (Hc : child n = c).
    { destruct Hok as [_ Hall]. apply (Hall c n).
      by apply dict_get_Some_elem. }
    pose proof (dict_get_values _ _ _ Hget) as Hin.
    destruct (decide (parent n = p)) as [<-|Hne].
    + rewrite <- Hc.
      apply (commit_nodes_transforms_elem _ s n Hfilled
               (table_ok_values_NoDup _ Hok) Hin).
    + apply commit_nodes_transforms_other; [done|].
      intros m Hm [= Hmc Hmp].
      destruct (table_ok_values_filled d m Hok Hm) as (_ & _ & Hgm).
      rewrite Hmc, Hget in Hgm. injection Hgm as ->. done.
  - apply commit_nodes_transforms_other; [done|].
    intros m Hm [= Hmc Hmp].
    destruct (table_ok_values_filled d m Hok Hm) as (_ & _ & Hgm).
    rewrite Hmc, Hget in Hgm. discriminate Hgm.
Qed.

Section RobotNameEdges.
Variables r1 r2 : string.
Variable fromstring : string -> list R.
Variable matrix_from_euler_xyz : list R -> option M3.

Local Abbreviation load_joint := (load_joint fromstring matrix_from_euler_xyz).
Local Abbreviation load_joints := (load_joints fromstring matrix_from_euler_xyz).
Local Abbreviation load_urdf := (load_urdf fromstring matrix_from_euler_xyz).

(** The node of a link that a joint names as its child was written by a
    joint. *)
Lemma load_joints_written js nodes nodes' c :
  load_joints js nodes = inr nodes' ->
  (exists n, dict_get c nodes = Some n /\ is_Some (joint_name n)) \/
    (exists j, j ∈ js /\ joint_link "child" j = Some c) ->
  exists n, dict_get c nodes' = Some n /\ is_Some (joint_name n).
Proof.
  revert nodes. induction js as [|j js IH]; intros nodes H Hc.
  - injection H as <-. destruct Hc as [Hc|(j & Hj & _)]; [done|].
    by apply elem_of_nil in Hj.
  - apply load_joints_inv in H as (nodes1 & H1 & H2).
    apply (IH _ H2).
    apply load_joint_inr in H1
      as (jn & jt & pn & cn & node & c2p & axis
          & _ & _ & _ & _ & _ & Hcn & Hg & ->).
    destruct (decide (cn = c)) as [->|Hne].
    { left. rewrite dict_get_set_eq. eexists. split; [done|]. by eexists. }
    destruct Hc as [(n & Hn & Hs)|(j' & Hj' & Hc')].
    + left. exists n. by rewrite dict_get_set_ne.
    + apply elem_of_cons in Hj' as [->|Hj'].
      * congruence.
      * right. by exists j'.
Qed.

(** A link whose node is fresh after the joint loop is a root link. *)
Lemma fresh_node_root rn robot nodes1 nodes2 c p :
  load_links rn (findAll "link" robot) [] = inr nodes1 ->
  load_joints (findAll "joint" robot) nodes1 = inr nodes2 ->
  dict_get c nodes2 = Some (Node_init c p) ->
  root_link robot c.
Proof.
  intros Hl Hj Hget. split.
  - apply (load_links_keys rn robot nodes1 c Hl).
    rewrite <- dict_mem_true.
    rewrite <- (dict_get_keys_eq c _ _ (load_joints_keys _ _ _ _ _ Hj)).
    apply dict_mem_true. by eexists.
  - intros j Hin Hc.
    destruct (load_joints_written _ _ _ c Hj) as (n & Hn & Hs).
    { right. by exists j. }
    rewrite Hget in Hn. injection Hn as <-. by destruct Hs.
Qed.

(** The node of a root link is the fresh node under the robot name. *)
Lemma root_link_node rn robot nodes1 nodes2 c :
  load_links rn (findAll "link" robot) [] = inr nodes1 ->
  load_joints (findAll "joint" robot) nodes1 = inr nodes2 ->
  root_link robot c ->
  dict_get c nodes2 = Some (Node_init c rn).
Proof.
  intros Hl Hj [(link & Hin & Hc) Hroot].
  rewrite (load_joints_untouched _ _ _ _ _ c Hj Hroot).
  apply (load_links_declared _ _ _ _ _ Hl). right. by exists link.
Qed.

(** C8 (amended): a load that returns commits, for every root link of
    the document (a declared link that no joint names as its child), the
    identity edge from the link to the robot name, and no other edge from
    that link.  Two documents whose robot elements have the same contents
    and the names [r1] and [r2] have the same outcome (the same
    exception, or both return), the same joint registrations, the same
    edge from every frame that is not a root link to every frame, the
    two robot names included, the same edges towards every frame other
    than [r1] and [r2], and the same frames other than [r1] and [r2]:
    the two loads differ in the parent frame of the root links'
    edges. *)
Theorem robot_name_names_root_frame
    (urdf1 urdf2 : PageElement) (tag : string)
    (attrs1 attrs2 : dict string) (contents : list PageElement)
    (self : UrdfTransformManager)
    (Hrobot1 : find "robot" urdf1 = Some (Tag tag attrs1 contents))
    (Hrobot2 : find "robot" urdf2 = Some (Tag tag attrs2 contents))
    (Hname1 : dict_get "name" attrs1 = Some r1)
    (Hname2 : dict_get "name" attrs2 = Some r2) :
  let robot := Tag tag attrs1 contents in
  let self1 := (load_urdf urdf1 self).1 in
  let self2 := (load_urdf urdf2 self).1 in
  (load_urdf urdf1 self).2 = (load_urdf urdf2 self).2 /\
  _joints self1 = _joints self2 /\
  (forall c p, ~ root_link robot c ->
     transforms self1 !! (c, p) = transforms self2 !! (c, p)) /\
  (forall c p, p ≠ r1 -> p ≠ r2 ->
     transforms self1 !! (c, p) = transforms self2 !! (c, p)) /\
  (forall f, f ≠ r1 -> f ≠ r2 -> f ∈ frames self1 <-> f ∈ frames self2) /\
  ((load_urdf urdf1 self).2 = inr tt ->
   forall c, root_link robot c ->
     transforms self1 !! (c, r1) = Some eye4 /\
     transforms self2 !! (c, r2) = Some eye4 /\
     (forall p, p ≠ r1 -> transforms self1 !! (c, p) = transforms self !! (c, p)) /\
     (forall p, p ≠ r2 -> transforms self2 !! (c, p) = transforms self !! (c, p)) /\
     r1 ∈ frames self1 /\ r2 ∈ frames self2).
Proof.
  intros robot self1 self2. unfold self1, self2. clear self1 self2.
  rewrite (load_urdf_robot _ _ urdf1 _ r1 self Hrobot1 Hname1).
  rewrite (load_urdf_robot _ _ urdf2 _ r2 self Hrobot2 Hname2).
  change (findAll "link" (Tag tag attrs2 contents))
    with (findAll "link" robot).
  change (findAll "joint" (Tag tag attrs2 contents))
    with (findAll "joint" robot).
  fold robot.
  pose proof (load_links_agree r1 r2 (findAll "link" robot)
                [] [] ltac:(constructor)) as Hl.
  destruct (load_links r1 _ []) as [e1|t1] eqn:Hl1,
           (load_links r2 _ []) as [e2|t2] eqn:Hl2; try done.
  { simpl in Hl. subst. split_and!; try done. }
  pose proof (load_joints_agree r1 r2 fromstring matrix_from_euler_xyz
                (findAll "joint" robot) _ _ Hl) as Hj.
  destruct (load_joints _ t1) as [e1|u1] eqn:Hj1,
           (load_joints _ t2) as [e2|u2] eqn:Hj2; try done.
  { simpl in Hj. subst. split_and!; try done. }
  assert (Hok1 : table_ok u1).
  { apply (load_joints_table_ok _ _ _ _ _
             ltac:(eapply load_links_table_ok; [apply table_ok_nil|exact Hl1])
             Hj1). }
  assert (Hok2 : table_ok u2).
  { apply (load_joints_table_ok _ _ _ _ _
             ltac:(eapply load_links_table_ok; [apply table_ok_nil|exact Hl2])
             Hj2). }
  destruct (commit_nodes_agree r1 r2 fromstring matrix_from_euler_xyz _ _ self self
              (tables_agree_values r1 r2 _ _ Hj) (agree_refl r1 r2 self))
    as (Hreg & Hedges & Hframes).
  split; [by rewrite !commit_nodes_ok|].
  split; [exact Hreg|].
  split; [|split; [exact Hedges|split; [exact Hframes|]]].
  - intros c p Hnot.
    rewrite !commit_nodes_lookup by done.
    pose proof (tables_agree_get r1 r2 c _ _ Hj) as Hg.
    destruct (dict_get c u1) as [n1|] eqn:Hg1,
             (dict_get c u2) as [n2|] eqn:Hg2; try done.
    destruct Hg as [->|(c' & -> & ->)]; [done|].
    exfalso. apply Hnot.
    assert (c' = c) as ->.
    { destruct Hok1 as [_ Hall].
      apply (Hall c (Node_init c' r1)). by apply dict_get_Some_elem. }
    apply (fresh_node_root r1 robot t1 u1 c r1 Hl1 Hj1 Hg1).
  - intros _ c Hroot.
    pose proof (root_link_node r1 robot t1 u1 c Hl1 Hj1 Hroot) as Hn1.
    pose proof (root_link_node r2 robot t2 u2 c Hl2 Hj2 Hroot) as Hn2.
    assert (Hfilled1 : forall n, n ∈ dict_values u1 -> node_filled n).
    { intros n Hn. by apply (table_ok_values_filled u1 n Hok1). }
    assert (Hfilled2 : forall n, n ∈ dict_values u2 -> node_filled n).
    { intros n Hn. by apply (table_ok_values_filled u2 n Hok2). }
    split_and!.
    + rewrite commit_nodes_lookup, Hn1 by done. cbn. by rewrite decide_True.
    + rewrite commit_nodes_lookup, Hn2 by done. cbn. by rewrite decide_True.
    + intros p Hp. rewrite commit_nodes_lookup, Hn1 by done. cbn.
      by rewrite decide_False.
    + intros p Hp. rewrite commit_nodes_lookup, Hn2 by done. cbn.
      by rewrite decide_False.
    + apply commit_nodes_frames; [done|]. right.
      exists (Node_init c r1). split; [by apply (dict_get_values c)|by right].
    + apply commit_nodes_frames; [done|]. right.
      exists (Node_init c r2). split; [by apply (dict_get_values c)|by right].
Qed.
End RobotNameEdges.

(** ** The loader over a store that validates *)


Section CheckedLoaderFacts.
Variable fromstring : string -> list R.
Variable matrix_from_euler_xyz : list R -> option M3.
Variable transform_from_shape : M3 -> list R -> option M4.
Variable check_transform : M4 -> bool.

Local Abbreviation transform_from_any :=
  (transform_from_any transform_from_shape).
Local Abbreviation commit_node_checked :=
  (commit_node_checked check_transform).
Local Abbreviation commit_nodes_checked :=
  (commit_nodes_checked check_transform).
Local Abbreviation _parse_joint_checked :=
  (_parse_joint_checked fromstring matrix_from_euler_xyz transform_from_shape).
Local Abbreviation load_joint_checked :=
  (load_joint_checked fromstring matrix_from_euler_xyz transform_from_shape).
Local Abbreviation load_joints_checked :=
  (load_joints_checked fromstring matrix_from_euler_xyz transform_from_shape).
Local Abbreviation load_urdf_checked :=
  (load_urdf_checked fromstring matrix_from_euler_xyz transform_from_shape
     check_transform).











End CheckedLoaderFacts.

(** A store that accepts every matrix, under a numeric library that
    refuses every translation that is not a 3-vector, is the store of
    [load_urdf]. *)
Lemma load_urdf_checked_total fromstring matrix_from_euler_xyz urdf :
  load_urdf_checked fromstring matrix_from_euler_xyz (fun _ _ => None)
    (fun _ => true) urdf
  = load_urdf fromstring matrix_from_euler_xyz urdf.
Proof. reflexivity. Qed.

(** ** The properties on the sample documents *)

(** No link element of the sample declares the link "ghost". *)
Lemma ghost_not_declared : ~ declared ghost_robot "ghost".
Proof.
  intros (link & Hin & Hname). vm_compute in Hin.
  apply elem_of_cons in Hin as [->|Hin]; [discriminate Hname|].
  apply elem_of_cons in Hin as [->|Hin]; [discriminate Hname|].
  by apply elem_of_nil in Hin.
Defined.

Lemma origin_rotation_transposed_witness :
  attr sample_joint "name" = Some "j1" /\
  attr sample_joint "type" = Some "revolute" /\
  "revolute" ∈ ["revolute"; "fixed"] /\
  exists node',
    _parse_joint sample_fromstring sample_euler sample_joint
      (Node_init "arm" "r") "base" = inr node' /\
    rotation_block (child2parent node') = transpose3 quarter_turn_z /\
    translation_of (child2parent node') = mkV3 1 0 0.
Proof.
  assert (Hin : "revolute" ∈ ["revolute"; "fixed"]) by left.
  split; [reflexivity|]. split; [reflexivity|]. split; [exact Hin|].
  destruct (origin_rotation_transposed sample_fromstring sample_euler
              sample_joint (Node_init "arm" "r") "base" "j1" "revolute"
              eq_refl eq_refl Hin) as (Hrpy & _ & _).
  apply (proj2 (Hrpy (Tag "origin" [("xyz", "1 0 0"); ("rpy", "0 0 1.5708")] [])
                     "0 0 1.5708" quarter_turn_z eq_refl eq_refl eq_refl)
               "1 0 0" 1 0 0); reflexivity.
Defined.

Lemma unknown_link_any_order_witness :
  reaches sample_fromstring sample_euler ghost_urdf ghost_robot ghost_joint
    [("base", Node_init "base" "r"); ("arm", Node_init "arm" "r")] /\
  attr ghost_joint "name" = Some "j1" /\
  is_Some (attr ghost_joint "type") /\
  find "parent" ghost_joint = Some (Tag "parent" [("link", "ghost")] []) /\
  attr (Tag "parent" [("link", "ghost")] []) "link" = Some "ghost" /\
  load_urdf sample_fromstring sample_euler ghost_urdf new_manager
    = (new_manager, inl (UnknownParentLink "ghost" "j1")).
Proof.
  assert (Hreach : reaches sample_fromstring sample_euler ghost_urdf
            ghost_robot ghost_joint
            [("base", Node_init "base" "r"); ("arm", Node_init "arm" "r")]).
  { exists "r", [("base", Node_init "base" "r"); ("arm", Node_init "arm" "r")],
      [], []. repeat split; reflexivity. }
  assert (Htype : is_Some (attr ghost_joint "type")) by (by exists "fixed").
  split; [exact Hreach|]. split; [reflexivity|]. split; [exact Htype|].
  split; [reflexivity|]. split; [reflexivity|].
  apply (proj1 (unknown_link_any_order sample_fromstring sample_euler
                  ghost_urdf ghost_robot ghost_joint
                  (Tag "parent" [("link", "ghost")] []) _ new_manager
                  "j1" "ghost" Hreach eq_refl Htype eq_refl eq_refl)).
  exact ghost_not_declared.
Defined.

Lemma joint_type_checked_witness :
  reaches sample_fromstring sample_euler continuous_urdf continuous_robot
    continuous_joint
    [("base", Node_init "base" "r"); ("arm", Node_init "arm" "r")] /\
  attr continuous_joint "name" = Some "j1" /\
  attr continuous_joint "type" = Some "continuous" /\
  joint_link "parent" continuous_joint = Some "base" /\
  joint_link "child" continuous_joint = Some "arm" /\
  load_urdf sample_fromstring sample_euler continuous_urdf new_manager
    = (new_manager, inl (UnsupportedJointType "continuous")).
Proof.
  assert (Hreach : reaches sample_fromstring sample_euler continuous_urdf
            continuous_robot continuous_joint
            [("base", Node_init "base" "r"); ("arm", Node_init "arm" "r")]).
  { exists "r", [("base", Node_init "base" "r"); ("arm", Node_init "arm" "r")],
      [], []. repeat split; reflexivity. }
  split; [exact Hreach|]. repeat (split; [reflexivity|]).
  apply (proj1 (joint_type_checked sample_fromstring sample_euler
                  continuous_urdf continuous_robot continuous_joint _
                  new_manager "j1" "continuous" "base" "arm"
                  Hreach eq_refl eq_refl eq_refl
                  (ex_intro _ (Node_init "base" "r") eq_refl) eq_refl
                  (ex_intro _ (Node_init "arm" "r") eq_refl))).
  right. right. left.
Defined.


Lemma root_links_attach_to_robot_witness :
  load_urdf sample_fromstring sample_euler sample_urdf new_manager
    = (add_joint "j1" "arm" "base"
         (homogeneous (transpose3 quarter_turn_z) (mkV3 1 0 0)) [0; 0; 1]
         (add_transform "base" "r" eye4 new_manager), inr tt) /\
  find "robot" sample_urdf = Some sample_robot /\
  attr sample_robot "name" = Some "r" /\
  Tag "link" [("name", "base")] [] ∈ findAll "link" sample_robot /\
  attr (Tag "link" [("name", "base")] []) "name" = Some "base" /\
  (forall joint, joint ∈ findAll "joint" sample_robot ->
     joint_link "child" joint ≠ Some "base") /\
  transforms (add_joint "j1" "arm" "base"
         (homogeneous (transpose3 quarter_turn_z) (mkV3 1 0 0)) [0; 0; 1]
         (add_transform "base" "r" eye4 new_manager)) !! ("base", "r")
    = Some eye4.
Proof.
  assert (Hin : Tag "link" [("name", "base")] [] ∈ findAll "link" sample_robot)
    by left.
  assert (Hroot : forall joint, joint ∈ findAll "joint" sample_robot ->
                    joint_link "child" joint ≠ Some "base").
  { intros joint Hj. vm_compute in Hj.
    apply elem_of_cons in Hj as [->|Hj]; [discriminate|].
    by apply elem_of_nil in Hj. }
  split; [reflexivity|]. split; [reflexivity|]. split; [reflexivity|].
  split; [exact Hin|]. split; [reflexivity|]. split; [exact Hroot|].
  apply (proj1 (root_links_attach_to_robot sample_fromstring sample_euler
           sample_urdf sample_robot (Tag "link" [("name", "base")] [])
           new_manager _ "r" "base" eq_refl eq_refl eq_refl Hin eq_refl Hroot)).
Defined.

Lemma registry_iff_revolute_witness :
  load_urdf sample_fromstring sample_euler sample_urdf new_manager
    = (add_joint "j1" "arm" "base"
         (homogeneous (transpose3 quarter_turn_z) (mkV3 1 0 0)) [0; 0; 1]
         (add_transform "base" "r" eye4 new_manager), inr tt) /\
  find "robot" sample_urdf = Some sample_robot /\
  NoDup (joint_link "child" <$> findAll "joint" sample_robot) /\
  NoDup ((fun j => attr j "name") <$> findAll "joint" sample_robot) /\
  (is_Some (_joints (add_joint "j1" "arm" "base"
         (homogeneous (transpose3 quarter_turn_z) (mkV3 1 0 0)) [0; 0; 1]
         (add_transform "base" "r" eye4 new_manager)) !! "j1")
   <-> "revolute" = "revolute").
Proof.
  assert (Hc : NoDup (joint_link "child" <$> findAll "joint" sample_robot))
    by apply NoDup_singleton.
  assert (Hn : NoDup ((fun j => attr j "name") <$> findAll "joint" sample_robot))
    by apply NoDup_singleton.
  split; [reflexivity|]. split; [reflexivity|].
  split; [exact Hc|]. split; [exact Hn|].
  destruct (registry_iff_revolute sample_fromstring sample_euler sample_urdf
              sample_robot new_manager _ eq_refl eq_refl Hc Hn) as [Hiff _].
  apply (Hiff sample_joint "j1" "revolute"); [left|reflexivity..].
Defined.

(** Loads that return and break the equivalence.  With two joints of the
    same child link, the revolute joint "j1" has no record and cannot be
    set.  With a fixed and a revolute joint of the same name "j", the
    name of the fixed joint has a record and can be set.  And a load into
    a manager that holds a record "j1" keeps it, although "j1" is a fixed
    joint of the document. *)
Lemma duplicate_joints_break_registry_iff :
  ((load_urdf sample_fromstring sample_euler shared_child_urdf new_manager).2
     = inr tt /\
   find "robot" shared_child_urdf = Some shared_child_robot /\
   shared_child_joint1 ∈ findAll "joint" shared_child_robot /\
   attr shared_child_joint1 "name" = Some "j1" /\
   attr shared_child_joint1 "type" = Some "revolute" /\
   _joints (load_urdf sample_fromstring sample_euler shared_child_urdf
              new_manager).1 !! "j1" = None /\
   (set_joint "j1" 0
      (load_urdf sample_fromstring sample_euler shared_child_urdf
         new_manager).1).2 = inl (UnknownJoint "j1")) /\
  ((load_urdf sample_fromstring sample_euler shared_name_urdf new_manager).2
     = inr tt /\
   find "robot" shared_name_urdf = Some shared_name_robot /\
   shared_name_joint1 ∈ findAll "joint" shared_name_robot /\
   attr shared_name_joint1 "name" = Some "j" /\
   attr shared_name_joint1 "type" = Some "fixed" /\
   is_Some (_joints (load_urdf sample_fromstring sample_euler
                       shared_name_urdf new_manager).1 !! "j") /\
   (set_joint "j" 0
      (load_urdf sample_fromstring sample_euler shared_name_urdf
         new_manager).1).2 = inr tt) /\
  ((load_urdf sample_fromstring sample_euler fixed_urdf sample_manager).2
     = inr tt /\
   find "robot" fixed_urdf = Some fixed_robot /\
   fixed_joint ∈ findAll "joint" fixed_robot /\
   attr fixed_joint "name" = Some "j1" /\
   attr fixed_joint "type" = Some "fixed" /\
   is_Some (_joints (load_urdf sample_fromstring sample_euler fixed_urdf
                       sample_manager).1 !! "j1")).
Proof.
  split_and!; try reflexivity; try (by eexists); left.
Qed.

Lemma robot_name_names_root_frame_witness :
  find "robot" (named_arm_urdf "r")
    = Some (Tag "robot" [("name", "r")]
              [Tag "link" [("name", "base")] [];
               Tag "link" [("name", "arm")] []; sample_joint]) /\
  find "robot" (named_arm_urdf "base")
    = Some (Tag "robot" [("name", "base")]
              [Tag "link" [("name", "base")] [];
               Tag "link" [("name", "arm")] []; sample_joint]) /\
  dict_get "name" [("name", "r")] = Some "r" /\
  dict_get "name" [("name", "base")] = Some "base" /\
  let robot :=
    Tag "robot" [("name", "r")]
      [Tag "link" [("name", "base")] [];
       Tag "link" [("name", "arm")] []; sample_joint] in
  let self1 :=
    (load_urdf sample_fromstring sample_euler (named_arm_urdf "r")
       new_manager).1 in
  let self2 :=
    (load_urdf sample_fromstring sample_euler (named_arm_urdf "base")
       new_manager).1 in
  (load_urdf sample_fromstring sample_euler (named_arm_urdf "r")
     new_manager).2
    = (load_urdf sample_fromstring sample_euler (named_arm_urdf "base")
         new_manager).2 /\
  _joints self1 = _joints self2 /\
  (forall c p, ~ root_link robot c ->
     transforms self1 !! (c, p) = transforms self2 !! (c, p)) /\
  (forall c p, p ≠ "r" -> p ≠ "base" ->
     transforms self1 !! (c, p) = transforms self2 !! (c, p)) /\
  (forall f, f ≠ "r" -> f ≠ "base" ->
     f ∈ frames self1 <-> f ∈ frames self2) /\
  ((load_urdf sample_fromstring sample_euler (named_arm_urdf "r")
      new_manager).2 = inr tt ->
   forall c, root_link robot c ->
     transforms self1 !! (c, "r") = Some eye4 /\
     transforms self2 !! (c, "base") = Some eye4 /\
     (forall p, p ≠ "r" ->
        transforms self1 !! (c, p) = transforms new_manager !! (c, p)) /\
     (forall p, p ≠ "base" ->
        transforms self2 !! (c, p) = transforms new_manager !! (c, p)) /\
     "r" ∈ frames self1 /\ "base" ∈ frames self2).
Proof.
  do 4 (split; [reflexivity|]).
  apply (robot_name_names_root_frame "r" "base" sample_fromstring sample_euler
           (named_arm_urdf "r") (named_arm_urdf "base") "robot"
           [("name", "r")] [("name", "base")]
           [Tag "link" [("name", "base")] [];
            Tag "link" [("name", "arm")] []; sample_joint]
           new_manager); reflexivity.
Defined.

(** A robot that is named like one of its links: the edge of the joint
    from "arm" to "base" is the same as under another robot name, "arm"
    is no root link, and the root link "base" gets the edge to the frame
    of the robot name, here itself. *)
Lemma robot_named_like_a_link :
  let joint_edge := homogeneous (transpose3 quarter_turn_z) (mkV3 1 0 0) in
  let self1 :=
    (load_urdf sample_fromstring sample_euler (named_arm_urdf "r")
       new_manager).1 in
  let self2 :=
    (load_urdf sample_fromstring sample_euler (named_arm_urdf "base")
       new_manager).1 in
  ~ root_link (Tag "robot" [("name", "r")]
                 [Tag "link" [("name", "base")] [];
                  Tag "link" [("name", "arm")] []; sample_joint]) "arm" /\
  transforms self1 !! ("arm", "base") = Some joint_edge /\
  transforms self2 !! ("arm", "base") = Some joint_edge /\
  transforms self1 !! ("base", "r") = Some eye4 /\
  transforms self2 !! ("base", "base") = Some eye4 /\
  transforms self2 !! ("base", "r") = None.
Proof.
  split; [|repeat split; reflexivity].
  intros [_ Hroot]. apply (Hroot sample_joint); [|reflexivity].
  vm_compute. left.
Qed.

(** Two documents that differ in the robot name only, and the edges they
    commit: the link "base" is attached to the frame "r" by one and not
    by the other. *)
Lemma robot_name_changes_edges :
  (load_urdf sample_fromstring sample_euler (named_urdf "r") new_manager).2
    = inr tt /\
  (load_urdf sample_fromstring sample_euler (named_urdf "s") new_manager).2
    = inr tt /\
  transforms (load_urdf sample_fromstring sample_euler (named_urdf "r")
                new_manager).1 !! ("base", "r") = Some eye4 /\
  transforms (load_urdf sample_fromstring sample_euler (named_urdf "s")
                new_manager).1 !! ("base", "r") = None /\
  transforms (load_urdf sample_fromstring sample_euler (named_urdf "s")
                new_manager).1 !! ("base", "s") = Some eye4.
Proof. repeat split; reflexivity. Qed.

(** * Further properties *)

(** ** More on the joint registry *)

Lemma manager_eq (s1 s2 : UrdfTransformManager) :
  frames s1 = frames s2 -> transforms s1 = transforms s2 ->
  _joints s1 = _joints s2 -> s1 = s2.
Proof. destruct s1, s2; simpl. by intros -> -> ->. Qed.

Lemma matrix_from_axis_angle_length a :
  (exists m, matrix_from_axis_angle a = inr m) <-> length a = 4%nat.
Proof.
  destruct a as [|ux [|uy [|uz [|theta [|x a]]]]]; simpl; split;
    try done; try (by intros [m Hm]). intros _. by eexists.
Qed.

Lemma matrix_from_axis_angle_refused a :
  length a ≠ 4%nat -> matrix_from_axis_angle a = inl ValueError.
Proof.
  destruct a as [|ux [|uy [|uz [|theta [|x a]]]]]; simpl; try done.
Qed.

(** What [set_joint] does on a registered joint, whatever its axis. *)
Lemma set_joint_record self name c p T axis angle :
  _joints self !! name = Some (c, p, T, axis) ->
  set_joint name angle self =
    match matrix_from_axis_angle (axis ++ [angle]) with
    | inl e => (self, inl e)
    | inr Rj =>
        (add_transform c p (concat (homogeneous Rj (mkV3 0 0 0)) T) self,
         inr tt)
    end.
Proof.
  intros Hreg. unfold set_joint. rewrite Hreg.
  unfold bind, lift, call.
  by destruct (matrix_from_axis_angle (axis ++ [angle])).
Qed.

(** X1: [set_joint] raises the KeyError of an unknown joint exactly when
    the name has no record, and [ValueError] when the stored axis is not
    a 3-vector; it returns when the axis is one; and whenever it raises,
    the manager is left as it was. *)
Theorem set_joint_raises_and_keeps_self
    (self : UrdfTransformManager) (name : string) (angle : R) :
  (_joints self !! name = None ->
     set_joint name angle self = (self, inl (UnknownJoint name))) /\
  (forall c p T axis,
     _joints self !! name = Some (c, p, T, axis) -> length axis ≠ 3%nat ->
     set_joint name angle self = (self, inl ValueError)) /\
  (forall c p T axis,
     _joints self !! name = Some (c, p, T, axis) -> length axis = 3%nat ->
     exists self', set_joint name angle self = (self', inr tt)) /\
  (forall self' e,
     set_joint name angle self = (self', inl e) ->
     self' = self /\
     ((e = UnknownJoint name /\ _joints self !! name = None) \/
      (e = ValueError /\
       exists c p T axis,
         _joints self !! name = Some (c, p, T, axis) /\
         length axis ≠ 3%nat))).
Proof.
  split_and!.
  - intros Hnone. unfold set_joint. by rewrite Hnone.
  - intros c p T axis Hreg Hlen.
    rewrite (set_joint_record _ _ _ _ _ _ _ Hreg).
    rewrite matrix_from_axis_angle_refused; [done|].
    rewrite length_app. simpl. lia.
  - intros c p T axis Hreg Hlen.
    rewrite (set_joint_record _ _ _ _ _ _ _ Hreg).
    assert (Hm : exists m, matrix_from_axis_angle (axis ++ [angle]) = inr m).
    { apply matrix_from_axis_angle_length. rewrite length_app. simpl. lia. }
    destruct Hm as [m ->]. by eexists.
  - intros self' e.
    destruct (_joints self !! name) as [[[[c p] T] axis]|] eqn:Hreg.
    + rewrite (set_joint_record _ _ _ _ _ _ _ Hreg).
      destruct (decide (length (axis ++ [angle]) = 4%nat)) as [Hlen|Hlen].
      * apply matrix_from_axis_angle_length in Hlen as [m ->]. done.
      * rewrite (matrix_from_axis_angle_refused _ Hlen).
        intros [= <- <-]. split; [done|]. right. split; [done|].
        exists c, p, T, axis. split; [done|].
        rewrite length_app in Hlen. simpl in Hlen. lia.
    + unfold set_joint. rewrite Hreg. intros [= <- <-]. auto.
Qed.

(** X2: [set_joint] on a registered joint changes the edge
    (child, parent) of that joint and nothing else: every other edge and
    the registry are kept, and the frames are kept when the child and
    parent frames exist already. *)
Theorem set_joint_touches_one_edge
    (self : UrdfTransformManager) (name c p : string) (T : M4)
    (ux uy uz angle : R)
    (Hreg : _joints self !! name = Some (c, p, T, [ux; uy; uz])) :
  exists self',
    set_joint name angle self = (self', inr tt) /\
    (forall k, k ≠ (c, p) -> transforms self' !! k = transforms self !! k) /\
    _joints self' = _joints self /\
    frames self' = {[c]} ∪ {[p]} ∪ frames self /\
    (c ∈ frames self -> p ∈ frames self -> frames self' = frames self).
Proof.
  destruct (set_joint_registered self name c p T ux uy uz angle Hreg)
    as (Rj & _ & Hset).
  eexists. split; [exact Hset|]. split_and!; try done.
  - intros k Hk. cbn. by rewrite lookup_insert_ne.
  - intros Hc Hp. cbn. apply set_eq. intros x.
    rewrite !elem_of_union, !elem_of_singleton.
    split; [intros [[->| ->]|H]; done | by right].
Qed.

(** X3: the edge that [set_joint] commits depends on the last angle
    only: setting the angle [a] and then [b] gives the manager that
    setting [b] alone gives. *)
Theorem set_joint_last_angle_wins
    (self : UrdfTransformManager) (name c p : string) (T : M4)
    (ux uy uz a b : R)
    (Hreg : _joints self !! name = Some (c, p, T, [ux; uy; uz])) :
  exists s1 s2,
    set_joint name a self = (s1, inr tt) /\
    set_joint name b s1 = (s2, inr tt) /\
    set_joint name b self = (s2, inr tt).
Proof.
  destruct (set_joint_registered self name c p T ux uy uz a Hreg)
    as (Ra & _ & Hseta).
  destruct (set_joint_registered self name c p T ux uy uz b Hreg)
    as (Rb & HRb & Hsetb).
  set (s1 := add_transform c p (concat (homogeneous Ra (mkV3 0 0 0)) T) self)
    in *.
  assert (Hreg1 : _joints s1 !! name = Some (c, p, T, [ux; uy; uz]))
    by exact Hreg.
  destruct (set_joint_registered s1 name c p T ux uy uz b Hreg1)
    as (Rb' & HRb' & Hsetb').
  assert (Rb' = Rb) as -> by congruence.
  unfold s1 in Hsetb' at 2. rewrite add_transform_twice in Hsetb'.
  eexists _, _. split_and!; [exact Hseta|exact Hsetb'|exact Hsetb].
Qed.

(** X4: [set_joint] on two registered joints with different edges
    commutes: either order gives the same manager. *)
Theorem set_joint_commutes
    (self : UrdfTransformManager) (n1 n2 c1 p1 c2 p2 : string) (T1 T2 : M4)
    (x1 y1 z1 x2 y2 z2 a b : R)
    (Hreg1 : _joints self !! n1 = Some (c1, p1, T1, [x1; y1; z1]))
    (Hreg2 : _joints self !! n2 = Some (c2, p2, T2, [x2; y2; z2]))
    (Hedges : (c1, p1) ≠ (c2, p2)) :
  exists s1 s2 s12,
    set_joint n1 a self = (s1, inr tt) /\
    set_joint n2 b s1 = (s12, inr tt) /\
    set_joint n2 b self = (s2, inr tt) /\
    set_joint n1 a s2 = (s12, inr tt).
Proof.
  destruct (set_joint_registered self n1 c1 p1 T1 x1 y1 z1 a Hreg1)
    as (R1 & HR1 & Hset1).
  destruct (set_joint_registered self n2 c2 p2 T2 x2 y2 z2 b Hreg2)
    as (R2 & HR2 & Hset2).
  set (E1 := concat (homogeneous R1 (mkV3 0 0 0)) T1) in *.
  set (E2 := concat (homogeneous R2 (mkV3 0 0 0)) T2) in *.
  destruct (set_joint_registered (add_transform c1 p1 E1 self)
              n2 c2 p2 T2 x2 y2 z2 b Hreg2) as (R2' & HR2' & Hset12).
  destruct (set_joint_registered (add_transform c2 p2 E2 self)
              n1 c1 p1 T1 x1 y1 z1 a Hreg1) as (R1' & HR1' & Hset21).
  assert (R2' = R2) as -> by congruence.
  assert (R1' = R1) as -> by congruence.
  fold E1 in Hset21. fold E2 in Hset12.
  eexists _, _, _. split_and!; [exact Hset1|exact Hset12|exact Hset2|].
  rewrite Hset21. f_equal. apply manager_eq; cbn.
  - apply set_eq. intros x. rewrite !elem_of_union. tauto.
  - by apply insert_insert_ne.
  - done.
Qed.

(** X5: [add_joint] under a name that is registered replaces the
    record, commits the new edge, and leaves the old edge in the store
    when it is another edge; the other records and edges are kept. *)
Theorem add_joint_again_replaces_record
    (self : UrdfTransformManager) (name c1 p1 c2 p2 : string) (T1 T2 : M4)
    (axis1 axis2 : list R) :
  let s := add_joint name c2 p2 T2 axis2 (add_joint name c1 p1 T1 axis1 self) in
  _joints s !! name = Some (c2, p2, T2, axis2) /\
  transforms s !! (c2, p2) = Some T2 /\
  ((c1, p1) ≠ (c2, p2) -> transforms s !! (c1, p1) = Some T1) /\
  (forall other, other ≠ name -> _joints s !! other = _joints self !! other) /\
  (forall k, k ≠ (c1, p1) -> k ≠ (c2, p2) ->
     transforms s !! k = transforms self !! k).
Proof.
  intros s. unfold s, add_joint, add_transform; cbn. split_and!.
  - apply lookup_insert_eq.
  - apply lookup_insert_eq.
  - intros Hne. rewrite lookup_insert_ne by done. apply lookup_insert_eq.
  - intros other Hne. by rewrite !lookup_insert_ne.
  - intros k H1 H2. by rewrite !lookup_insert_ne.
Qed.

(** ** More on the loader *)

Ltac unfold_axis_as_declared := unfold axis_as_declared.
Ltac unfold_axis_as_declared_in H := unfold axis_as_declared in H.

Section MoreLoaderFacts.
Variable fromstring : string -> list R.
Variable matrix_from_euler_xyz : list R -> option M3.

Local Abbreviation _parse_joint := (_parse_joint fromstring matrix_from_euler_xyz).
Local Abbreviation load_joint := (load_joint fromstring matrix_from_euler_xyz).
Local Abbreviation load_joints := (load_joints fromstring matrix_from_euler_xyz).
Local Abbreviation load_urdf := (load_urdf fromstring matrix_from_euler_xyz).
Local Abbreviation reaches := (reaches fromstring matrix_from_euler_xyz).

(** The structural checks of a joint element, one by one. *)
Lemma load_joint_structure nodes j :
  (attr j "name" = None -> load_joint nodes j = inl MissingJointName) /\
  (forall jn, attr j "name" = Some jn ->
     (attr j "type" = None -> load_joint nodes j = inl (MissingJointType jn)) /\
     (is_Some (attr j "type") ->
        (find "parent" j = None ->
           load_joint nodes j = inl (MissingJointParent jn)) /\
        (forall par, find "parent" j = Some par ->
           (attr par "link" = None ->
              load_joint nodes j = inl (MissingParentLinkName jn)) /\
           (forall pn, attr par "link" = Some pn ->
              is_Some (dict_get pn nodes) ->
              (find "child" j = None ->
                 load_joint nodes j = inl (MissingJointChild jn)) /\
              (forall ch, find "child" j = Some ch ->
                 attr ch "link" = None ->
                 load_joint nodes j = inl (MissingChildLinkName jn)))))).
Proof.
  split.
  - intros Hn. unfold_load_joint. apply has_attr_false in Hn. by rewrite Hn.
  - intros jn Hn. split.
    + intros Ht. unfold_load_joint.
      rewrite (attr_has _ _ _ Hn), (attr_getitem _ _ _ Hn).
      apply has_attr_false in Ht. cbn [negb ebind]. by rewrite Ht.
    + intros Ht. apply has_attr_attr in Ht. split.
      * intros Hp. unfold_load_joint.
        rewrite (attr_has _ _ _ Hn), (attr_getitem _ _ _ Hn).
        cbn [negb ebind]. by rewrite Ht, Hp.
      * intros par Hp. split.
        -- intros Hpl. unfold_load_joint.
           rewrite (attr_has _ _ _ Hn), (attr_getitem _ _ _ Hn).
           cbn [negb ebind]. rewrite Ht, Hp.
           apply has_attr_false in Hpl. by rewrite Hpl.
        -- intros pn Hpl Hpk. apply dict_mem_true in Hpk. split.
           ++ intros Hc. unfold_load_joint.
              rewrite (attr_has _ _ _ Hn), (attr_getitem _ _ _ Hn).
              cbn [negb ebind]. rewrite Ht, Hp.
              rewrite (attr_has _ _ _ Hpl), (attr_getitem _ _ _ Hpl).
              cbn [negb ebind]. by rewrite Hpk, Hc.
           ++ intros ch Hc Hcl. unfold_load_joint.
              rewrite (attr_has _ _ _ Hn), (attr_getitem _ _ _ Hn).
              cbn [negb ebind]. rewrite Ht, Hp.
              rewrite (attr_has _ _ _ Hpl), (attr_getitem _ _ _ Hpl).
              cbn [negb ebind]. rewrite Hpk, Hc.
              apply has_attr_false in Hcl. by rewrite Hcl.
Qed.

(** X6: at a joint element that the loader reaches, the structural
    checks run in this order, each giving the outcome of the load and
    leaving the manager as it was: missing name, missing type, missing
    parent element, parent element without link attribute, then (the
    parent link being declared) missing child element, child element
    without link attribute; all messages but the first embed the name of
    the joint. *)
Theorem joint_structure_checked
    (urdf robot joint : PageElement) (nodes : dict Node)
    (Hreach : reaches urdf robot joint nodes) :
  forall s : UrdfTransformManager,
  (attr joint "name" = None ->
     load_urdf urdf s = (s, inl MissingJointName)) /\
  (forall jn, attr joint "name" = Some jn ->
     (attr joint "type" = None ->
        load_urdf urdf s = (s, inl (MissingJointType jn))) /\
     (is_Some (attr joint "type") ->
        (find "parent" joint = None ->
           load_urdf urdf s = (s, inl (MissingJointParent jn))) /\
        (forall par, find "parent" joint = Some par ->
           (attr par "link" = None ->
              load_urdf urdf s = (s, inl (MissingParentLinkName jn))) /\
           (forall pn, attr par "link" = Some pn -> declared robot pn ->
              (find "child" joint = None ->
                 load_urdf urdf s = (s, inl (MissingJointChild jn))) /\
              (forall ch, find "child" joint = Some ch ->
                 attr ch "link" = None ->
                 load_urdf urdf s = (s, inl (MissingChildLinkName jn))))))).
Proof.
  intros s.
  destruct (load_joint_structure nodes joint) as [H1 H2].
  pose proof (fun e => reaches_error _ _ urdf robot joint nodes e s Hreach)
    as Hout.
  split; [intros Hn; by apply Hout, H1|].
  intros jn Hn. destruct (H2 jn Hn) as [H3 H4].
  split; [intros Ht; by apply Hout, H3|].
  intros Ht. destruct (H4 Ht) as [H5 H6].
  split; [intros Hp; by apply Hout, H5|].
  intros par Hp. destruct (H6 par Hp) as [H7 H8].
  split; [intros Hpl; by apply Hout, H7|].
  intros pn Hpl Hd.
  assert (Hpk : is_Some (dict_get pn nodes))
    by by apply (reaches_declared _ _ _ _ _ _ _ Hreach).
  destruct (H8 pn Hpl Hpk) as [H9 H10].
  split; [intros Hc; by apply Hout, H9|].
  intros ch Hc Hcl. by apply Hout, (H10 ch).
Qed.

(** [_parse_joint] on a joint with a name and a type raises nothing but
    [UrdfException] and [ValueError]. *)
Lemma parse_joint_inl j node pn jn jt e :
  attr j "name" = Some jn -> attr j "type" = Some jt ->
  _parse_joint j node pn = inl e ->
  (exists msg, e = UrdfException msg) \/ e = ValueError.
Proof.
  intros Hn Ht He.
  destruct (decide (jt ∈ ["planar"; "floating"; "continuous"; "prismatic"]))
    as [H4|H4].
  { rewrite (parse_joint_unsupported _ _ _ _ _ _ _ Hn Ht H4) in He.
    injection He as <-. left. by eexists. }
  destruct (decide (jt ∈ ["revolute"; "fixed"])) as [H2|H2].
  - right.
    exact (parse_joint_allowed fromstring matrix_from_euler_xyz j node pn jn
             jt e Hn Ht H2 He).
  - rewrite (parse_joint_invalid _ _ _ _ _ _ _ Hn Ht H4 H2) in He.
    injection He as <-. left. by eexists.
Qed.

Lemma load_joint_inl nodes j e :
  load_joint nodes j = inl e ->
  (exists msg, e = UrdfException msg) \/ e = ValueError.
Proof.
  unfold_load_joint.
  destruct (has_attr j "name") eqn:Hn; cbn [negb];
    [|intros [= <-]; left; by eexists].
  apply has_attr_attr in Hn as [jn Hn]. rewrite (attr_getitem _ _ _ Hn).
  cbn [ebind].
  destruct (has_attr j "type") eqn:Ht; cbn [negb];
    [|intros [= <-]; left; by eexists].
  apply has_attr_attr in Ht as [jt Ht].
  destruct (find "parent" j) as [par|]; [|intros [= <-]; left; by eexists].
  destruct (has_attr par "link") eqn:Hpl; cbn [negb];
    [|intros [= <-]; left; by eexists].
  apply has_attr_attr in Hpl as [pn Hpl]. rewrite (attr_getitem _ _ _ Hpl).
  cbn [ebind].
  destruct (dict_mem pn nodes); cbn [negb];
    [|intros [= <-]; left; by eexists].
  destruct (find "child" j) as [ch|]; [|intros [= <-]; left; by eexists].
  destruct (has_attr ch "link") eqn:Hcl; cbn [negb];
    [|intros [= <-]; left; by eexists].
  apply has_attr_attr in Hcl as [cn Hcl]. rewrite (attr_getitem _ _ _ Hcl).
  cbn [ebind].
  destruct (dict_mem cn nodes) eqn:Hcm; cbn [negb];
    [|intros [= <-]; left; by eexists].
  apply dict_mem_true in Hcm as [node Hnode].
  unfold dict_getitem. rewrite Hnode. cbn [ebind].
  destruct (_parse_joint j node pn) as [e'|node'] eqn:Hpj; cbn [ebind];
    [|done].
  intros [= <-]. by apply (parse_joint_inl j node pn jn jt).
Qed.

Lemma load_joints_inl js nodes e :
  load_joints js nodes = inl e ->
  (exists msg, e = UrdfException msg) \/ e = ValueError.
Proof.
  revert nodes. induction js as [|j js IH]; intros nodes; [done|].
  simpl. destruct (load_joint nodes j) as [e'|nodes1] eqn:E; cbn [ebind].
  - intros [= <-]. by apply (load_joint_inl nodes j).
  - apply IH.
Qed.

Lemma load_links_inl rn links nodes e :
  load_links rn links nodes = inl e -> e = MissingLinkName.
Proof.
  revert nodes. induction links as [|l links IH]; intros nodes; [done|].
  simpl. destruct (_parse_link l rn) as [e'|n] eqn:E; cbn [ebind].
  - intros [= <-]. by apply parse_link_inl in E as [-> _].
  - apply IH.
Qed.

(** X7: a load that raises, raises an [UrdfException] or the numeric
    library's [ValueError]: the attribute reads are all guarded, no
    [KeyError] escapes [load_urdf]. *)
Theorem load_urdf_never_raises_key_error
    (urdf : PageElement) (self self' : UrdfTransformManager) (e : exn)
    (Hfail : load_urdf urdf self = (self', inl e)) :
  (exists msg, e = UrdfException msg) \/ e = ValueError.
Proof.
  revert Hfail. unfold_load_urdf.
  destruct (find "robot" urdf) as [robot|];
    [|intros [= _ <-]; left; by eexists].
  destruct (has_attr robot "name") eqn:Hn; cbn [negb];
    [|intros [= _ <-]; left; by eexists].
  apply has_attr_attr in Hn as [rn Hn]. rewrite (attr_getitem _ _ _ Hn).
  unfold bind, lift.
  destruct (load_links rn (findAll "link" robot) []) as [e1|nodes1] eqn:Hl.
  { intros [= _ <-]. apply load_links_inl in Hl as ->. left. by eexists. }
  destruct (load_joints (findAll "joint" robot) nodes1) as [e2|nodes2] eqn:Hj.
  { intros [= _ <-]. by apply (load_joints_inl _ _ _ Hj). }
  intros H. pose proof (commit_nodes_ok (dict_values nodes2) self) as Hok.
  rewrite H in Hok. discriminate Hok.
Qed.

(** X8: the link loop returns if and only if every link element has a
    name, and then its table has distinct keys and holds, for every
    declared link name and for no other key, the fresh node of that
    name: link elements that repeat a name give one node. *)
Theorem link_table_one_node_per_name (rn : string) (robot : PageElement) :
  ((exists nodes, load_links rn (findAll "link" robot) [] = inr nodes) <->
   (forall l, l ∈ findAll "link" robot -> is_Some (attr l "name"))) /\
  (forall nodes,
      load_links rn (findAll "link" robot) [] = inr nodes ->
      NoDup nodes.*1 /\
      forall k n, dict_get k nodes = Some n <->
                  declared robot k /\ n = Node_init k rn).
Proof.
  split.
  - split.
    + intros [nodes Hl] l Hin.
      destruct (attr l "name") as [c|] eqn:E; [by eexists|].
      rewrite (load_links_missing_name rn _ [] l Hin E) in Hl. discriminate Hl.
    + apply load_links_total.
  - intros nodes Hl. split.
    + by destruct (load_links_table_ok rn _ [] nodes table_ok_nil Hl).
    + intros k n. split.
      * intros Hk. split.
        -- apply (load_links_keys rn robot nodes k Hl). by eexists.
        -- by apply (load_links_fresh rn (findAll "link" robot) [] nodes).
      * intros [Hd ->]. apply (load_links_declared _ _ _ _ _ Hl). by right.
Qed.
End MoreLoaderFacts.

(** ** More on the commit loop *)

Lemma ebind_inr {A B} (r : exn + A) (k : A -> exn + B) b :
  ebind r k = inr b -> exists a, r = inr a /\ k a = inr b.
Proof. destruct r as [e|a]; [done|]. intros H. by exists a. Qed.

Lemma commit_nodes_pair vs s : commit_nodes vs s = ((commit_nodes vs s).1, inr tt).
Proof.
  pose proof (commit_nodes_ok vs s) as H.
  destruct (commit_nodes vs s) as [s' o]. simpl in *. by subst.
Qed.

Lemma commit_nodes_transforms_provenance vs s c p T :
  transforms (commit_nodes vs s).1 !! (c, p) = Some T ->
  transforms s !! (c, p) = Some T \/
  exists n, n ∈ vs /\ child n = c /\ parent n = p.
Proof.
  revert s. induction vs as [|n vs IH]; intros s H; [by left|].
  rewrite commit_nodes_cons in H.
  destruct (IH _ H) as [H1|(m & Hm & Hrest)].
  2: { right. exists m. split; [by right|done]. }
  destruct (decide ((child n, parent n) = (c, p))) as [[= Hc Hp]|Hne].
  { right. exists n. split; [left|done]. }
  left. revert H1. unfold commit_node.
  destruct (String.eqb (joint_type n) "revolute").
  - destruct (joint_name n) as [nm|]; [|done].
    destruct (joint_axis n) as [ax|]; [|done].
    cbn. by rewrite lookup_insert_ne.
  - cbn. by rewrite lookup_insert_ne.
Qed.

(** After the commit loop, an edge that some node writes, or that two
    managers agreed on, is the same whatever the manager was. *)
Lemma commit_nodes_transforms_rel vs s1 s2 k :
  (forall n, n ∈ vs -> node_filled n) ->
  transforms s1 !! k = transforms s2 !! k \/
    (exists n, n ∈ vs /\ (child n, parent n) = k) ->
  transforms (commit_nodes vs s1).1 !! k
    = transforms (commit_nodes vs s2).1 !! k.
Proof.
  revert s1 s2. induction vs as [|m vs IH]; intros s1 s2 Hf H.
  - destruct H as [H|(n & Hn & _)]; [done|]. by apply elem_of_nil in Hn.
  - rewrite !commit_nodes_cons. apply IH.
    { intros n Hn. apply Hf. by right. }
    rewrite !commit_node_transforms by (apply Hf; left).
    destruct (decide ((child m, parent m) = k)) as [<-|Hne].
    { left. by rewrite !lookup_insert_eq. }
    destruct H as [H|(n & Hn & Hk)].
    + left. by rewrite !lookup_insert_ne.
    + apply elem_of_cons in Hn as [->|Hn]; [done|]. right. by exists n.
Qed.

Lemma commit_nodes_joints_rel vs s1 s2 name :
  _joints s1 !! name = _joints s2 !! name \/
    (exists n, n ∈ vs /\ node_filled n /\ joint_type n = "revolute" /\
               joint_name n = Some name) ->
  _joints (commit_nodes vs s1).1 !! name
    = _joints (commit_nodes vs s2).1 !! name.
Proof.
  revert s1 s2. induction vs as [|m vs IH]; intros s1 s2 H.
  - destruct H as [H|(n & Hn & _)]; [done|]. by apply elem_of_nil in Hn.
  - rewrite !commit_nodes_cons. apply IH.
    unfold commit_node.
    destruct (String.eqb (joint_type m) "revolute") eqn:E.
    + apply String.eqb_eq in E.
      destruct (joint_name m) as [nm|] eqn:En.
      * destruct (joint_axis m) as [ax|] eqn:Ea.
        -- cbn. destruct (decide (nm = name)) as [->|Hne].
           { left. by rewrite !lookup_insert_eq. }
           rewrite !lookup_insert_ne by done.
           destruct H as [H|(n & Hn & Hfn & Ht & Hnn)]; [by left|].
           apply elem_of_cons in Hn as [->|Hn]; [congruence|].
           right. by exists n.
        -- cbn. destruct H as [H|(n & Hn & Hfn & Ht & Hnn)]; [by left|].
           apply elem_of_cons in Hn as [->|Hn].
           { destruct (Hfn Ht) as [_ [ax Hax]]. congruence. }
           right. by exists n.
      * cbn. destruct H as [H|(n & Hn & Hfn & Ht & Hnn)]; [by left|].
        apply elem_of_cons in Hn as [->|Hn]; [congruence|].
        right. by exists n.
    + cbn. destruct H as [H|(n & Hn & Hfn & Ht & Hnn)]; [by left|].
      apply elem_of_cons in Hn as [->|Hn].
      { rewrite Ht in E. discriminate E. }
      right. by exists n.
Qed.

(** Running the commit loop a second time changes nothing. *)
Lemma commit_nodes_twice vs s :
  (forall n, n ∈ vs -> node_filled n) ->
  (commit_nodes vs (commit_nodes vs s).1).1 = (commit_nodes vs s).1.
Proof.
  intros Hf. apply manager_eq.
  - apply set_eq. intros f. rewrite !commit_nodes_frames by done. tauto.
  - apply map_eq. intros k.
    destruct (decide (Exists (fun n => (child n, parent n) = k) vs))
      as [Hex|Hnex].
    + apply Exists_exists in Hex as (n & Hn & Hk).
      apply commit_nodes_transforms_rel; [done|]. right. by exists n.
    + destruct k as [c p]. apply commit_nodes_transforms_other; [done|].
      intros n Hn Hk. apply Hnex. apply Exists_exists. by exists n.
  - apply map_eq. intros name.
    destruct (decide (Exists (fun n => joint_type n = "revolute" /\
                                joint_name n = Some name) vs)) as [Hex|Hnex].
    + apply Exists_exists in Hex as (n & Hn & Ht & Hnn).
      apply commit_nodes_joints_rel. right. exists n. split_and!; try done.
      by apply Hf.
    + apply commit_nodes_joints_other.
      intros n Hn Ht Hnn. apply Hnex. apply Exists_exists. by exists n.
Qed.

(** The record of a node whose name no other revolute node carries. *)
Lemma commit_nodes_joints_exact vs s n name ax :
  NoDup (child <$> vs) -> n ∈ vs ->
  joint_type n = "revolute" -> joint_name n = Some name ->
  joint_axis n = Some ax ->
  (forall m, m ∈ vs -> joint_type m = "revolute" ->
             joint_name m = Some name -> m = n) ->
  _joints (commit_nodes vs s).1 !! name
    = Some (child n, parent n, child2parent n, ax).
Proof.
  revert s. induction vs as [|m vs IH]; intros s Hnd Hin Ht Hn Ha Huniq.
  - by apply elem_of_nil in Hin.
  - rewrite fmap_cons in Hnd. apply NoDup_cons in Hnd as [Hm Hnd].
    rewrite commit_nodes_cons.
    apply elem_of_cons in Hin as [->|Hin].
    + rewrite commit_nodes_joints_other.
      * rewrite (commit_node_joints_revolute m s name ax) by done.
        apply lookup_insert_eq.
      * intros k Hk Hkt Hkn. apply Hm.
        rewrite <- (Huniq k) by (by try right).
        apply list_elem_of_fmap. by exists k.
    + apply IH; try done. intros k Hk. apply Huniq. by right.
Qed.

(** ** The loaded graph *)

Section LoadedGraph.
Variable fromstring : string -> list R.
Variable matrix_from_euler_xyz : list R -> option M3.

Local Abbreviation _parse_joint := (_parse_joint fromstring matrix_from_euler_xyz).
Local Abbreviation load_joint := (load_joint fromstring matrix_from_euler_xyz).
Local Abbreviation load_joints := (load_joints fromstring matrix_from_euler_xyz).
Local Abbreviation load_urdf := (load_urdf fromstring matrix_from_euler_xyz).
Local Abbreviation reaches := (reaches fromstring matrix_from_euler_xyz).
Local Abbreviation axis_as_declared := (axis_as_declared fromstring).

(** X9: when [_parse_joint] returns, the node keeps its child name, has
    the given parent, the name and the type of the joint element, a type
    that is revolute or fixed, and an axis: (1, 0, 0) for a fixed joint,
    whatever axis element it has, and for a revolute joint without an
    axis element or without its xyz attribute; the parsed xyz attribute
    otherwise. *)
Theorem parse_joint_fills_node
    (joint : PageElement) (node node' : Node) (pn : string)
    (Hparse : _parse_joint joint node pn = inr node') :
  child node' = child node /\
  parent node' = pn /\
  attr joint "name" = joint_name node' /\
  attr joint "type" = Some (joint_type node') /\
  joint_type node' ∈ ["revolute"; "fixed"] /\
  exists axis,
    joint_axis node' = Some axis /\
    (joint_type node' = "fixed" -> axis = [1; 0; 0]) /\
    (joint_type node' = "revolute" ->
       (find "axis" joint = None -> axis = [1; 0; 0]) /\
       (forall a, find "axis" joint = Some a ->
          (attr a "xyz" = None -> axis = [1; 0; 0]) /\
          (forall text, attr a "xyz" = Some text -> axis = fromstring text))).
Proof.
  revert Hparse. unfold_parse_joint.
  destruct (getitem joint "name") as [e|jn] eqn:Hn; [done|].
  destruct (getitem joint "type") as [e|jt] eqn:Ht; [done|].
  unfold ebind at 1 2. apply getitem_attr in Hn, Ht.
  destruct (str_in jt ["planar"; _; _; _]); [done|].
  destruct (str_in jt ["revolute"; "fixed"]) eqn:E; [|done]. cbn [negb].
  apply str_in_elem in E. intros H.
  apply ebind_inr in H as (tr & _ & H).
  apply ebind_inr in H as (rot & _ & H).
  apply ebind_inr in H as (c2p & _ & H).
  apply ebind_inr in H as (axis & Hax & H).
  injection H as <-. cbn. split_and!; try done.
  exists axis. split; [done|]. split.
  - intros ->. by injection Hax as <-.
  - intros ->. cbn in Hax. split.
    + intros Hnone. rewrite Hnone in Hax. by injection Hax as <-.
    + intros a Ha. rewrite Ha in Hax. split.
      * intros Hx. apply has_attr_false in Hx. rewrite Hx in Hax.
        by injection Hax as <-.
      * intros text Hx. rewrite (attr_has _ _ _ Hx) in Hax.
        rewrite (attr_getitem _ _ _ Hx) in Hax. by injection Hax as <-.
Qed.

(** The node that [_parse_joint] returns, in one equation. *)
Lemma parse_joint_node joint node pn node' :
  _parse_joint joint node pn = inr node' ->
  exists jn jt c2p axis,
    attr joint "name" = Some jn /\ attr joint "type" = Some jt /\
    jt ∈ ["revolute"; "fixed"] /\ axis_as_declared joint jt axis /\
    node' = mkNode (child node) pn c2p (Some jn) (Some axis) jt.
Proof.
  unfold_parse_joint.
  destruct (getitem joint "name") as [e|jn] eqn:Hn; [done|].
  destruct (getitem joint "type") as [e|jt] eqn:Ht; [done|].
  unfold ebind at 1 2. apply getitem_attr in Hn, Ht.
  destruct (str_in jt ["planar"; _; _; _]); [done|].
  destruct (str_in jt ["revolute"; "fixed"]) eqn:E; [|done]. cbn [negb].
  apply str_in_elem in E. intros H.
  apply ebind_inr in H as (tr & _ & H).
  apply ebind_inr in H as (rot & _ & H).
  apply ebind_inr in H as (c2p & _ & H).
  apply ebind_inr in H as (axis & Hax & H).
  injection H as <-. exists jn, jt, c2p, axis. split_and!; try done.
  unfold_axis_as_declared.
  destruct (String.eqb jt "revolute"); [|by injection Hax as <-].
  destruct (find "axis" joint) as [a|]; [|by injection Hax as <-].
  unfold has_attr, getitem, dict_getitem, dict_mem, attr in *.
  destruct (dict_get "xyz" (attrs_of a)); by injection Hax as <-.
Qed.

(** The table after a joint element that is accepted. *)
Lemma load_joint_node nodes j nodes' :
  table_ok nodes -> load_joint nodes j = inr nodes' ->
  exists jn jt pn cn c2p axis,
    attr j "name" = Some jn /\ attr j "type" = Some jt /\
    jt ∈ ["revolute"; "fixed"] /\
    joint_link "parent" j = Some pn /\ joint_link "child" j = Some cn /\
    axis_as_declared j jt axis /\
    nodes' = dict_set cn (mkNode cn pn c2p (Some jn) (Some axis) jt) nodes.
Proof.
  intros Hok H.
  destruct (load_joint_inr _ _ _ _ _ H)
    as (jn & jt & pn & cn & node & c2p0 & axis0
        & Hjn & Hjt & Hin & Hp & Hpk & Hc & Hg & _).
  apply joint_link_inv in Hp as Hp'. destruct Hp' as (par & Hpar & Hpl).
  apply joint_link_inv in Hc as Hc'. destruct Hc' as (ch & Hch & Hcl).
  assert (Htyped : is_Some (attr j "type")) by by eexists.
  rewrite (load_joint_validated _ _ nodes j jn par pn ch cn node
             Hjn Htyped Hpar Hpl Hpk Hch Hcl Hg) in H.
  apply ebind_inr in H as (node' & Hpj & H). injection H as <-.
  apply parse_joint_node in Hpj
    as (jn' & jt' & c2p & axis & Hjn' & Hjt' & _ & Hax & ->).
  assert (jn' = jn) as -> by congruence.
  assert (jt' = jt) as -> by congruence.
  assert (child node = cn) as ->.
  { destruct Hok as [_ Hall]. apply (Hall cn node).
    by apply dict_get_Some_elem. }
  by exists jn, jt, pn, cn, c2p, axis.
Qed.

(** The node of the child link of a joint element that no later joint
    element overwrites. *)
Lemma load_joints_last_joint pre j post nodes nodes' :
  table_ok nodes ->
  load_joints (pre ++ j :: post) nodes = inr nodes' ->
  (forall j', j' ∈ post -> joint_link "child" j' ≠ joint_link "child" j) ->
  exists jn jt pn cn c2p axis,
    attr j "name" = Some jn /\ attr j "type" = Some jt /\
    jt ∈ ["revolute"; "fixed"] /\
    joint_link "parent" j = Some pn /\ joint_link "child" j = Some cn /\
    axis_as_declared j jt axis /\
    dict_get cn nodes' = Some (mkNode cn pn c2p (Some jn) (Some axis) jt).
Proof.
  intros Hok H Hpost. rewrite load_joints_app in H.
  apply ebind_inr in H as (na & Hpre & H).
  apply load_joints_inv in H as (nb & Hj & Hrest).
  assert (Hoka : table_ok na).
  { exact (load_joints_table_ok fromstring matrix_from_euler_xyz pre nodes na
             Hok Hpre). }
  destruct (load_joint_node na j nb Hoka Hj)
    as (jn & jt & pn & cn & c2p & axis & Hjn & Hjt & Hin & Hp & Hc & Hax & ->).
  exists jn, jt, pn, cn, c2p, axis. split_and!; try done.
  rewrite (load_joints_untouched _ _ _ _ _ cn Hrest).
  - apply dict_get_set_eq.
  - intros j' Hj'. rewrite <- Hc. by apply Hpost.
Qed.

Lemma NoDup_fmap_split {A B} (f : A -> B) (l : list A) x :
  NoDup (f <$> l) -> x ∈ l ->
  exists pre post, l = (pre ++ x :: post)%list /\
                   forall y, y ∈ post -> f y ≠ f x.
Proof.
  intros Hnd Hx. apply list_elem_of_split in Hx as (pre & post & ->).
  exists pre, post. split; [done|]. intros y Hy Heq.
  rewrite fmap_app, fmap_cons in Hnd.
  apply NoDup_app in Hnd as (_ & _ & Hnd).
  apply NoDup_cons in Hnd as [Hnot _]. apply Hnot. rewrite <- Heq.
  apply list_elem_of_fmap. by exists y.
Qed.

(** The parent of a node of the final table is the robot name or a
    declared link. *)
Lemma loaded_node_parent rn robot nodes1 nodes2 k n :
  load_links rn (findAll "link" robot) [] = inr nodes1 ->
  load_joints (findAll "joint" robot) nodes1 = inr nodes2 ->
  dict_get k nodes2 = Some n ->
  declared robot k /\ (parent n = rn \/ declared robot (parent n)).
Proof.
  intros Hl Hj Hget. split.
  - apply (load_links_keys rn robot nodes1 k Hl).
    apply dict_mem_true.
    rewrite <- (dict_get_keys_eq k _ _ (load_joints_keys _ _ _ _ _ Hj)).
    apply dict_mem_true. by eexists.
  - destruct (load_joints_provenance _ _ _ _ _ _ _ Hj Hget)
      as [Hfresh|(j & Hin & _ & _ & _ & Hp & _)].
    + left.
      by rewrite (load_links_fresh rn (findAll "link" robot) [] nodes1
                    ltac:(done) Hl k n Hfresh).
    + right.
      destruct (load_joints_accepted _ _ _ _ _ j Hj Hin)
        as (_ & _ & pn & _ & _ & _ & _ & Hp' & _ & Hpk & _).
      assert (parent n = pn) as -> by congruence.
      by apply (load_links_keys rn robot nodes1 pn Hl).
Qed.

(** X10: after a load into a new manager, every declared link has
    exactly one outgoing edge, towards the robot name or a declared link;
    every edge starts at a declared link; the frames are the declared
    links and at most the robot name; and the edge of every registered
    joint holds the zero transform of its record. *)
Theorem loaded_graph_shape
    (urdf robot : PageElement) (self' : UrdfTransformManager) (rn : string)
    (Hload : load_urdf urdf new_manager = (self', inr tt))
    (Hrobot : find "robot" urdf = Some robot)
    (Hrn : attr robot "name" = Some rn) :
  (forall c, declared robot c ->
     exists p T,
       transforms self' !! (c, p) = Some T /\
       (p = rn \/ declared robot p) /\
       forall p', is_Some (transforms self' !! (c, p')) -> p' = p) /\
  (forall c p, is_Some (transforms self' !! (c, p)) -> declared robot c) /\
  (forall f, f ∈ frames self' -> declared robot f \/ f = rn) /\
  (forall c, declared robot c -> c ∈ frames self') /\
  (forall name c p T axis,
     _joints self' !! name = Some (c, p, T, axis) ->
     transforms self' !! (c, p) = Some T).
Proof.
  apply load_urdf_inr in Hload
    as (robot' & rn' & nodes1 & nodes2 & Hr & Hn & Hl & Hj & Hok & ->).
  assert (robot' = robot) as -> by congruence.
  assert (rn' = rn) as -> by congruence.
  assert (Hfilled : forall n, n ∈ dict_values nodes2 -> node_filled n).
  { intros n Hn'. by apply (table_ok_values_filled nodes2 n Hok). }
  pose proof (table_ok_values_NoDup _ Hok) as Hnd.
  assert (Hedge : forall c p, is_Some (transforms
             (commit_nodes (dict_values nodes2) new_manager).1 !! (c, p)) ->
             exists n, dict_get c nodes2 = Some n /\ parent n = p).
  { intros c p [T HT].
    apply commit_nodes_transforms_provenance in HT
      as [HT|(n & Hn' & Hc & Hp)]; [done|].
    destruct (table_ok_values_filled nodes2 n Hok Hn') as (_ & _ & Hget).
    exists n. by rewrite <- Hc. }
  split_and!.
  - intros c Hd.
    assert (Hk : is_Some (dict_get c nodes2)).
    { apply dict_mem_true.
      rewrite (dict_get_keys_eq c _ _ (load_joints_keys _ _ _ _ _ Hj)).
      apply dict_mem_true. by apply (load_links_keys rn robot nodes1 c Hl). }
    destruct Hk as [n Hget].
    pose proof (dict_get_values _ _ _ Hget) as Hin.
    assert (Hc : child n = c).
    { destruct Hok as [_ Hall]. apply (Hall c n).
      by apply dict_get_Some_elem. }
    exists (parent n), (child2parent n). split_and!.
    + rewrite <- Hc. by apply commit_nodes_transforms_elem.
    + by destruct (loaded_node_parent rn robot nodes1 nodes2 c n Hl Hj Hget).
    + intros p' Hp'. destruct (Hedge c p' Hp') as (m & Hm & <-). congruence.
  - intros c p Hcp. destruct (Hedge c p Hcp) as (n & Hget & _).
    by destruct (loaded_node_parent rn robot nodes1 nodes2 c n Hl Hj Hget).
  - intros f Hf. apply commit_nodes_frames in Hf; [|done].
    destruct Hf as [Hf|(n & Hn' & Hf)]; [by apply not_elem_of_empty in Hf|].
    destruct (table_ok_values_filled nodes2 n Hok Hn') as (_ & _ & Hget).
    destruct (loaded_node_parent rn robot nodes1 nodes2 _ n Hl Hj Hget)
      as [Hd Hp].
    destruct Hf as [->| ->]; [by left|]. destruct Hp as [->|Hp]; auto.
  - intros c Hd.
    assert (Hk : is_Some (dict_get c nodes2)).
    { apply dict_mem_true.
      rewrite (dict_get_keys_eq c _ _ (load_joints_keys _ _ _ _ _ Hj)).
      apply dict_mem_true. by apply (load_links_keys rn robot nodes1 c Hl). }
    destruct Hk as [n Hget].
    apply commit_nodes_frames; [done|]. right. exists n.
    split; [by apply (dict_get_values c)|]. left.
    destruct Hok as [_ Hall]. symmetry. apply (Hall c n).
    by apply dict_get_Some_elem.
  - intros name c p T axis Hrec.
    apply commit_nodes_joints_provenance in Hrec
      as [Hrec|(n & ax & Hn' & _ & _ & _ & [= -> -> -> ->])]; [done|].
    by apply commit_nodes_transforms_elem.
Qed.
End LoadedGraph.

(** ** Loading again *)

Section Reload.
Variable fromstring : string -> list R.
Variable matrix_from_euler_xyz : list R -> option M3.

Local Abbreviation _parse_joint := (_parse_joint fromstring matrix_from_euler_xyz).
Local Abbreviation load_joint := (load_joint fromstring matrix_from_euler_xyz).
Local Abbreviation load_joints := (load_joints fromstring matrix_from_euler_xyz).
Local Abbreviation load_urdf := (load_urdf fromstring matrix_from_euler_xyz).
Local Abbreviation reaches := (reaches fromstring matrix_from_euler_xyz).
Local Abbreviation axis_as_declared := (axis_as_declared fromstring).

(** A load that returns is the commit loop on a table that the document
    alone decides. *)
Lemma load_urdf_commits urdf self self' :
  load_urdf urdf self = (self', inr tt) ->
  exists robot rn nodes1 nodes2,
    find "robot" urdf = Some robot /\ attr robot "name" = Some rn /\
    load_links rn (findAll "link" robot) [] = inr nodes1 /\
    load_joints (findAll "joint" robot) nodes1 = inr nodes2 /\
    table_ok nodes1 /\ table_ok nodes2 /\
    self' = (commit_nodes (dict_values nodes2) self).1 /\
    forall s, load_urdf urdf s = commit_nodes (dict_values nodes2) s.
Proof.
  intros H.
  destruct (load_urdf_inr _ _ _ _ _ H)
    as (robot & rn & nodes1 & nodes2 & Hr & Hn & Hl & Hj & Hok & ->).
  exists robot, rn, nodes1, nodes2. split_and!; try done.
  - by apply (load_links_table_ok rn (findAll "link" robot) []);
      [apply table_ok_nil|].
  - intros s. by rewrite (load_urdf_robot _ _ _ _ _ s Hr Hn), Hl, Hj.
Qed.


(** X12: after a load of a document in which no two joint elements
    share a child link or a name, a revolute joint has the record
    (child, parent, zero transform, axis) under its name, the store holds
    that zero transform on the edge (child, parent), the axis is
    (1, 0, 0) unless the axis element has an xyz attribute, and
    [set_joint] on the name returns when the axis has three numbers. *)
Theorem revolute_joint_registered
    (urdf robot joint : PageElement) (self self' : UrdfTransformManager)
    (jn cn pn : string)
    (Hload : load_urdf urdf self = (self', inr tt))
    (Hrobot : find "robot" urdf = Some robot)
    (Hchildren : NoDup (joint_link "child" <$> findAll "joint" robot))
    (Hnames : NoDup ((fun j => attr j "name") <$> findAll "joint" robot))
    (Hjoint : joint ∈ findAll "joint" robot)
    (Hname : attr joint "name" = Some jn)
    (Htype : attr joint "type" = Some "revolute")
    (Hchild : joint_link "child" joint = Some cn)
    (Hparent : joint_link "parent" joint = Some pn) :
  exists T axis,
    _joints self' !! jn = Some (cn, pn, T, axis) /\
    transforms self' !! (cn, pn) = Some T /\
    (find "axis" joint = None -> axis = [1; 0; 0]) /\
    (forall a, find "axis" joint = Some a ->
       (attr a "xyz" = None -> axis = [1; 0; 0]) /\
       (forall text, attr a "xyz" = Some text -> axis = fromstring text)) /\
    (length axis = 3%nat ->
       forall angle, exists s, set_joint jn angle self' = (s, inr tt)).
Proof.
  destruct (load_urdf_commits _ _ _ Hload)
    as (robot' & rn & nodes1 & nodes2 & Hr & Hn & Hl & Hj & Hok1 & Hok & -> & _).
  assert (robot' = robot) as -> by congruence.
  destruct (NoDup_fmap_split (joint_link "child") _ joint Hchildren Hjoint)
    as (pre & post & Hsplit & Hpost).
  pose proof Hj as Hj'. rewrite Hsplit in Hj'.
  destruct (load_joints_last_joint _ _ pre joint post nodes1 nodes2
              Hok1 Hj' Hpost)
    as (jn' & jt & pn' & cn' & c2p & axis & Hjn & Hjt & Hin & Hp & Hc & Hax & Hget).
  assert (jn' = jn) as -> by congruence.
  assert (jt = "revolute") as -> by congruence.
  assert (pn' = pn) as -> by congruence.
  assert (cn' = cn) as -> by congruence.
  set (n := mkNode cn pn c2p (Some jn) (Some axis) "revolute") in *.
  pose proof (dict_get_values _ _ _ Hget) as Hnin.
  assert (Hfilled : forall m, m ∈ dict_values nodes2 -> node_filled m).
  { intros m Hm. by apply (table_ok_values_filled nodes2 m Hok). }
  pose proof (table_ok_values_NoDup _ Hok) as Hnd.
  assert (Hrec : _joints (commit_nodes (dict_values nodes2) self).1 !! jn
                 = Some (cn, pn, c2p, axis)).
  { apply (commit_nodes_joints_exact _ self n jn axis Hnd Hnin); try done.
    intros m Hm Ht Hmn.
    destruct (table_ok_values_filled nodes2 m Hok Hm) as (_ & _ & Hgm).
    destruct (load_joints_provenance _ _ _ _ _ _ _ Hj Hgm)
      as [Hfresh|(j' & Hj'in & Hj'c & Hj'n & _)].
    - rewrite (load_links_fresh rn (findAll "link" robot) [] nodes1
                 ltac:(done) Hl _ m Hfresh) in Ht. discriminate Ht.
    - assert (j' = joint) as ->.
      { apply (NoDup_fmap_elem_inj (fun j => attr j "name")
                 (findAll "joint" robot)); try done. congruence. }
      assert (child m = cn) as Hcm by congruence.
      rewrite Hcm in Hgm. congruence. }
  exists c2p, axis. split_and!.
  - done.
  - apply (commit_nodes_transforms_elem _ self n Hfilled Hnd Hnin).
  - intros Hnone. unfold_axis_as_declared_in Hax. cbn in Hax.
    by rewrite Hnone in Hax.
  - intros a Ha. unfold_axis_as_declared_in Hax. cbn in Hax.
    rewrite Ha in Hax. split.
    + intros Hx. by rewrite Hx in Hax.
    + intros text Hx. by rewrite Hx in Hax.
  - intros Hlen angle. rewrite (set_joint_record _ _ _ _ _ _ _ Hrec).
    assert (Hm : exists m, matrix_from_axis_angle (axis ++ [angle]) = inr m).
    { apply matrix_from_axis_angle_length. rewrite length_app. simpl. lia. }
    destruct Hm as [m ->]. by eexists.
Qed.

(** X13: loading the same document again, into the manager that the
    first load left, returns and changes nothing. *)
Theorem reload_changes_nothing
    (urdf : PageElement) (self self' : UrdfTransformManager)
    (Hload : load_urdf urdf self = (self', inr tt)) :
  load_urdf urdf self' = (self', inr tt).
Proof.
  destruct (load_urdf_commits _ _ _ Hload)
    as (robot & rn & nodes1 & nodes2 & _ & _ & _ & _ & _ & Hok & -> & Hany).
  rewrite Hany, commit_nodes_pair. f_equal. apply commit_nodes_twice.
  intros n Hn. by apply (table_ok_values_filled nodes2 n Hok).
Qed.

(** X14: a joint that the load registered is reset by loading again:
    after [set_joint] has moved it to any angle, the load of the same
    document gives back the manager that the first load left. *)
Theorem reload_resets_joint
    (urdf : PageElement) (self self' : UrdfTransformManager)
    (name c p : string) (T : M4) (ux uy uz angle : R)
    (Hload : load_urdf urdf self = (self', inr tt))
    (Hnew : _joints self !! name = None)
    (Hreg : _joints self' !! name = Some (c, p, T, [ux; uy; uz])) :
  exists moved,
    set_joint name angle self' = (moved, inr tt) /\
    load_urdf urdf moved = (self', inr tt).
Proof.
  destruct (load_urdf_commits _ _ _ Hload)
    as (robot & rn & nodes1 & nodes2 & _ & _ & _ & _ & _ & Hok & Hself & Hany).
  assert (Hfilled : forall m, m ∈ dict_values nodes2 -> node_filled m).
  { intros m Hm. by apply (table_ok_values_filled nodes2 m Hok). }
  destruct (set_joint_registered self' name c p T ux uy uz angle Hreg)
    as (Rj & _ & Hset).
  eexists. split; [exact Hset|].
  set (E := concat (homogeneous Rj (mkV3 0 0 0)) T).
  rewrite Hany, commit_nodes_pair. f_equal.
  assert (Hwriter : exists n, n ∈ dict_values nodes2 /\
                              (child n, parent n) = (c, p)).
  { rewrite Hself in Hreg.
    apply commit_nodes_joints_provenance in Hreg
      as [Hreg|(n & ax & Hn & _ & _ & _ & [= -> -> _ _])]; [congruence|].
    by exists n. }
  transitivity (commit_nodes (dict_values nodes2) self').1.
  2: { rewrite Hself at 1. rewrite commit_nodes_twice by done. done. }
  apply manager_eq.
  - apply set_eq. intros f. rewrite !commit_nodes_frames by done. cbn.
    rewrite !elem_of_union, !elem_of_singleton.
    destruct Hwriter as (n & Hn & [= Hc Hp]). split.
    + intros [[[->| ->]|Hf]|Hex]; auto.
      * right. exists n. auto.
      * right. exists n. auto.
    + intros [Hf|Hex]; auto.
  - apply map_eq. intros k. apply commit_nodes_transforms_rel; [done|].
    destruct (decide (k = (c, p))) as [->|Hne]; [by right|].
    left. cbn. by rewrite lookup_insert_ne.
  - apply map_eq. intros nm. apply commit_nodes_joints_rel. by left.
Qed.
End Reload.

(** ** The further properties on the sample inputs *)

Lemma set_joint_touches_one_edge_witness :
  _joints sample_manager !! "j1" = Some ("arm", "base", eye4, [0; 0; 1]) /\
  exists self',
    set_joint "j1" 1 sample_manager = (self', inr tt) /\
    (forall k, k ≠ ("arm", "base") ->
       transforms self' !! k = transforms sample_manager !! k) /\
    _joints self' = _joints sample_manager /\
    frames self' = {["arm"]} ∪ {["base"]} ∪ frames sample_manager /\
    ("arm" ∈ frames sample_manager -> "base" ∈ frames sample_manager ->
     frames self' = frames sample_manager).
Proof.
  split; [reflexivity|].
  apply (set_joint_touches_one_edge sample_manager "j1" "arm" "base" eye4
           0 0 1 1).
  reflexivity.
Defined.

Lemma set_joint_last_angle_wins_witness :
  _joints sample_manager !! "j1" = Some ("arm", "base", eye4, [0; 0; 1]) /\
  exists s1 s2,
    set_joint "j1" 1 sample_manager = (s1, inr tt) /\
    set_joint "j1" 2 s1 = (s2, inr tt) /\
    set_joint "j1" 2 sample_manager = (s2, inr tt).
Proof.
  split; [reflexivity|].
  apply (set_joint_last_angle_wins sample_manager "j1" "arm" "base" eye4
           0 0 1 1 2).
  reflexivity.
Defined.

Lemma set_joint_commutes_witness :
  _joints two_joint_manager !! "j1" = Some ("arm", "base", eye4, [0; 0; 1]) /\
  _joints two_joint_manager !! "j2" = Some ("hand", "arm", eye4, [1; 0; 0]) /\
  ("arm", "base") ≠ ("hand", "arm") /\
  exists s1 s2 s12,
    set_joint "j1" 1 two_joint_manager = (s1, inr tt) /\
    set_joint "j2" 2 s1 = (s12, inr tt) /\
    set_joint "j2" 2 two_joint_manager = (s2, inr tt) /\
    set_joint "j1" 1 s2 = (s12, inr tt).
Proof.
  assert (Hne : ("arm", "base") ≠ ("hand", "arm")) by discriminate.
  split; [reflexivity|]. split; [reflexivity|]. split; [exact Hne|].
  apply (set_joint_commutes two_joint_manager "j1" "j2" "arm" "base"
           "hand" "arm" eye4 eye4 0 0 1 1 0 0 1 2); [reflexivity..|exact Hne].
Defined.

(** The loader reaches the joint without a type. *)
Lemma typeless_reached :
  reaches sample_fromstring sample_euler typeless_urdf typeless_robot
    typeless_joint
    [("base", Node_init "base" "r"); ("arm", Node_init "arm" "r")].
Proof.
  exists "r", [("base", Node_init "base" "r"); ("arm", Node_init "arm" "r")],
    [], []. repeat split; reflexivity.
Defined.

Lemma joint_structure_checked_witness :
  reaches sample_fromstring sample_euler typeless_urdf typeless_robot
    typeless_joint
    [("base", Node_init "base" "r"); ("arm", Node_init "arm" "r")] /\
  attr typeless_joint "name" = Some "j1" /\
  attr typeless_joint "type" = None /\
  load_urdf sample_fromstring sample_euler typeless_urdf new_manager
    = (new_manager, inl (MissingJointType "j1")).
Proof.
  split; [exact typeless_reached|]. split; [reflexivity|].
  split; [reflexivity|].
  destruct (joint_structure_checked sample_fromstring sample_euler
              typeless_urdf typeless_robot typeless_joint _ typeless_reached
              new_manager) as [_ Hnamed].
  apply (proj1 (Hnamed "j1" eq_refl)). reflexivity.
Defined.

Lemma load_urdf_never_raises_key_error_witness :
  load_urdf sample_fromstring sample_euler late_error_urdf new_manager
    = (new_manager, inl (InvalidJointType "screw")) /\
  ((exists msg, InvalidJointType "screw" = UrdfException msg) \/
   InvalidJointType "screw" = ValueError).
Proof.
  split; [reflexivity|].
  apply (load_urdf_never_raises_key_error sample_fromstring sample_euler
           late_error_urdf new_manager new_manager).
  reflexivity.
Defined.

Lemma parse_joint_fills_node_witness :
  _parse_joint sample_fromstring sample_euler sample_joint
    (Node_init "arm" "r") "base"
    = inr (mkNode "arm" "base"
             (homogeneous (transpose3 quarter_turn_z) (mkV3 1 0 0))
             (Some "j1") (Some [0; 0; 1]) "revolute") /\
  exists axis,
    Some [0; 0; 1] = Some axis /\
    ("revolute" = "fixed" -> axis = [1; 0; 0]) /\
    ("revolute" = "revolute" ->
       (find "axis" sample_joint = None -> axis = [1; 0; 0]) /\
       (forall a, find "axis" sample_joint = Some a ->
          (attr a "xyz" = None -> axis = [1; 0; 0]) /\
          (forall text, attr a "xyz" = Some text ->
             axis = sample_fromstring text))).
Proof.
  split; [reflexivity|].
  destruct (parse_joint_fills_node sample_fromstring sample_euler sample_joint
              (Node_init "arm" "r")
              (mkNode "arm" "base"
                 (homogeneous (transpose3 quarter_turn_z) (mkV3 1 0 0))
                 (Some "j1") (Some [0; 0; 1]) "revolute")
              "base" eq_refl) as (_ & _ & _ & _ & _ & Haxis).
  exact Haxis.
Defined.

(** The load of the sample document into a new manager. *)
Lemma sample_loaded :
  load_urdf sample_fromstring sample_euler sample_urdf new_manager
    = (add_joint "j1" "arm" "base"
         (homogeneous (transpose3 quarter_turn_z) (mkV3 1 0 0)) [0; 0; 1]
         (add_transform "base" "r" eye4 new_manager), inr tt).
Proof. reflexivity. Defined.

Lemma loaded_graph_shape_witness :
  load_urdf sample_fromstring sample_euler sample_urdf new_manager
    = (add_joint "j1" "arm" "base"
         (homogeneous (transpose3 quarter_turn_z) (mkV3 1 0 0)) [0; 0; 1]
         (add_transform "base" "r" eye4 new_manager), inr tt) /\
  find "robot" sample_urdf = Some sample_robot /\
  attr sample_robot "name" = Some "r" /\
  forall c p,
    is_Some (transforms
               (add_joint "j1" "arm" "base"
                  (homogeneous (transpose3 quarter_turn_z) (mkV3 1 0 0))
                  [0; 0; 1]
                  (add_transform "base" "r" eye4 new_manager)) !! (c, p)) ->
    declared sample_robot c.
Proof.
  split; [exact sample_loaded|]. split; [reflexivity|]. split; [reflexivity|].
  apply (loaded_graph_shape sample_fromstring sample_euler sample_urdf
           sample_robot _ "r" sample_loaded eq_refl eq_refl).
Defined.


Lemma revolute_joint_registered_witness :
  load_urdf sample_fromstring sample_euler sample_urdf new_manager
    = (add_joint "j1" "arm" "base"
         (homogeneous (transpose3 quarter_turn_z) (mkV3 1 0 0)) [0; 0; 1]
         (add_transform "base" "r" eye4 new_manager), inr tt) /\
  find "robot" sample_urdf = Some sample_robot /\
  NoDup (joint_link "child" <$> findAll "joint" sample_robot) /\
  NoDup ((fun j => attr j "name") <$> findAll "joint" sample_robot) /\
  sample_joint ∈ findAll "joint" sample_robot /\
  attr sample_joint "name" = Some "j1" /\
  attr sample_joint "type" = Some "revolute" /\
  joint_link "child" sample_joint = Some "arm" /\
  joint_link "parent" sample_joint = Some "base" /\
  exists T axis,
    _joints (add_joint "j1" "arm" "base"
               (homogeneous (transpose3 quarter_turn_z) (mkV3 1 0 0))
               [0; 0; 1]
               (add_transform "base" "r" eye4 new_manager)) !! "j1"
      = Some ("arm", "base", T, axis) /\
    transforms (add_joint "j1" "arm" "base"
               (homogeneous (transpose3 quarter_turn_z) (mkV3 1 0 0))
               [0; 0; 1]
               (add_transform "base" "r" eye4 new_manager)) !! ("arm", "base")
      = Some T.
Proof.
  assert (Hc : NoDup (joint_link "child" <$> findAll "joint" sample_robot))
    by apply NoDup_singleton.
  assert (Hn : NoDup ((fun j => attr j "name") <$> findAll "joint" sample_robot))
    by apply NoDup_singleton.
  assert (Hin : sample_joint ∈ findAll "joint" sample_robot) by left.
  split; [exact sample_loaded|]. split; [reflexivity|]. split; [exact Hc|].
  split; [exact Hn|]. split; [exact Hin|]. do 4 (split; [reflexivity|]).
  destruct (revolute_joint_registered sample_fromstring sample_euler
              sample_urdf sample_robot sample_joint new_manager _
              "j1" "arm" "base" sample_loaded eq_refl Hc Hn Hin
              eq_refl eq_refl eq_refl eq_refl)
    as (T & axis & Hrec & Hedge & _).
  by exists T, axis.
Defined.

Lemma reload_changes_nothing_witness :
  load_urdf sample_fromstring sample_euler sample_urdf new_manager
    = (add_joint "j1" "arm" "base"
         (homogeneous (transpose3 quarter_turn_z) (mkV3 1 0 0)) [0; 0; 1]
         (add_transform "base" "r" eye4 new_manager), inr tt) /\
  load_urdf sample_fromstring sample_euler sample_urdf
    (add_joint "j1" "arm" "base"
       (homogeneous (transpose3 quarter_turn_z) (mkV3 1 0 0)) [0; 0; 1]
       (add_transform "base" "r" eye4 new_manager))
    = (add_joint "j1" "arm" "base"
         (homogeneous (transpose3 quarter_turn_z) (mkV3 1 0 0)) [0; 0; 1]
         (add_transform "base" "r" eye4 new_manager), inr tt).
Proof.
  split; [exact sample_loaded|].
  apply (reload_changes_nothing sample_fromstring sample_euler sample_urdf
           new_manager _ sample_loaded).
Defined.

Lemma reload_resets_joint_witness :
  load_urdf sample_fromstring sample_euler sample_urdf new_manager
    = (add_joint "j1" "arm" "base"
         (homogeneous (transpose3 quarter_turn_z) (mkV3 1 0 0)) [0; 0; 1]
         (add_transform "base" "r" eye4 new_manager), inr tt) /\
  _joints new_manager !! "j1" = None /\
  _joints (add_joint "j1" "arm" "base"
             (homogeneous (transpose3 quarter_turn_z) (mkV3 1 0 0)) [0; 0; 1]
             (add_transform "base" "r" eye4 new_manager)) !! "j1"
    = Some ("arm", "base",
            homogeneous (transpose3 quarter_turn_z) (mkV3 1 0 0), [0; 0; 1]) /\
  exists moved,
    set_joint "j1" 1
      (add_joint "j1" "arm" "base"
         (homogeneous (transpose3 quarter_turn_z) (mkV3 1 0 0)) [0; 0; 1]
         (add_transform "base" "r" eye4 new_manager)) = (moved, inr tt) /\
    load_urdf sample_fromstring sample_euler sample_urdf moved
      = (add_joint "j1" "arm" "base"
           (homogeneous (transpose3 quarter_turn_z) (mkV3 1 0 0)) [0; 0; 1]
           (add_transform "base" "r" eye4 new_manager), inr tt).
Proof.
  split; [exact sample_loaded|]. split; [reflexivity|]. split; [reflexivity|].
  apply (reload_resets_joint sample_fromstring sample_euler sample_urdf
           new_manager _ "j1" "arm" "base"
           (homogeneous (transpose3 quarter_turn_z) (mkV3 1 0 0))
           0 0 1 1 sample_loaded); reflexivity.
Defined.
